(** * The osquery case-management ingester: extraction, quarantine,
      aggregation, classification and report assembly

    A shallow embedding of [code/case_management_osquery_ingester.py].

    Python [str] values are modelled as Rocq [string]s whose characters are
    read as the code points 0..255; the character classes of [re] and of
    [str.strip] are the ones Python uses on that range.  Exceptions are
    modelled by the [result] type; floating point values are kept symbolic. *)

From Stdlib Require Import List String Ascii Bool Arith ZArith Lia Permutation.
From Stdlib Require Import Sorted DecimalString DecimalNat.
Import ListNotations.

Open Scope list_scope.
Open Scope string_scope.
Open Scope nat_scope.

(* ================================================================== *)
(** ** Python builtins used by the script *)
(* ================================================================== *)

Module Py.

(** Exceptions that the modelled code can raise. *)
Inductive exn : Type :=
| IndexError
| KeyError (key : string)
| AttributeError
| TypeError.

Inductive result (A : Type) : Type :=
| Ok (a : A)
| Raise (e : exn).
Arguments Ok {A} a.
Arguments Raise {A} e.

Definition bind {A B} (m : result A) (f : A -> result B) : result B :=
  match m with
  | Ok a => f a
  | Raise e => Raise e
  end.

(** A [for] loop whose body may raise: the first exception aborts it. *)
Fixpoint mapM {A B} (f : A -> result B) (l : list A) : result (list B) :=
  match l with
  | [] => Ok []
  | x :: t =>
      bind (f x) (fun y => bind (mapM f t) (fun ys => Ok (y :: ys)))
  end.

(** [lst[i]] *)
Definition index {A} (l : list A) (i : nat) : result A :=
  match nth_error l i with
  | Some x => Ok x
  | None => Raise IndexError
  end.

(** *** Character classes *)

Definition code (c : ascii) : nat := nat_of_ascii c.

Definition in_range (lo hi : nat) (c : ascii) : bool :=
  (lo <=? code c) && (code c <=? hi).

(** [[a-zA-Z]] *)
Definition is_letter (c : ascii) : bool :=
  in_range 65 90 c || in_range 97 122 c.

(** [[0-9]] *)
Definition is_digit (c : ascii) : bool := in_range 48 57 c.

(** [str.isspace] and the class [\s] of a [str] pattern: the ASCII
    whitespace 9..13, 28..32 and, above 127, NEL and NBSP. *)
Definition is_space (c : ascii) : bool :=
  in_range 9 13 c || in_range 28 32 c
  || (code c =? 133) || (code c =? 160).

(** The class [\w] of a [str] pattern: alphanumeric or underscore.  Above
    127 the alphanumeric code points are the letters, the superscript
    digits and the vulgar fractions. *)
Definition is_word (c : ascii) : bool :=
  is_letter c || is_digit c || (code c =? 95)
  || (code c =? 170) || (code c =? 178) || (code c =? 179)
  || (code c =? 181) || (code c =? 185) || (code c =? 186)
  || in_range 188 190 c
  || in_range 192 214 c || in_range 216 246 c || in_range 248 255 c.

(** Case folding as [re.IGNORECASE] applies it to the ASCII letters that
    occur in the script's patterns. *)
Definition lower (c : ascii) : ascii :=
  if in_range 65 90 c then ascii_of_nat (code c + 32) else c.

Definition eq_ci (a b : ascii) : bool := Ascii.eqb (lower a) (lower b).

Fixpoint lower_str (s : string) : string :=
  match s with
  | EmptyString => EmptyString
  | String c t => String (lower c) (lower_str t)
  end.

(** *** String methods *)

(** [c in s] for a one-character [c]. *)
Fixpoint contains_char (c : ascii) (s : string) : bool :=
  match s with
  | EmptyString => false
  | String d t => Ascii.eqb c d || contains_char c t
  end.

(** Whether every character of [s] is in the class [p]. *)
Fixpoint all_chars (p : ascii -> bool) (s : string) : bool :=
  match s with
  | EmptyString => true
  | String c t => p c && all_chars p t
  end.

(** [s.startswith(p)], characters compared by [eqc]. *)
Fixpoint startswith_by (eqc : ascii -> ascii -> bool) (p s : string) : bool :=
  match p, s with
  | EmptyString, _ => true
  | String a p', String b s' => eqc a b && startswith_by eqc p' s'
  | String _ _, EmptyString => false
  end.

Definition startswith : string -> string -> bool := startswith_by Ascii.eqb.

(** Whether [p] occurs somewhere in [s], characters compared by [eqc]. *)
Fixpoint occurs_by (eqc : ascii -> ascii -> bool) (p s : string) : bool :=
  startswith_by eqc p s
  || match s with
     | EmptyString => false
     | String _ t => occurs_by eqc p t
     end.

(** [p in s] *)
Definition occurs : string -> string -> bool := occurs_by Ascii.eqb.

(** [p] occurs in [s] when case is ignored. *)
Definition occurs_ci : string -> string -> bool := occurs_by eq_ci.

(** [t] is what remains of [s] after some prefix. *)
Definition is_suffix (t s : string) : Prop :=
  exists pre : string, s = (pre ++ t)%string.

(** [target.find(search)]: the lowest index at which [search] occurs in
    [target], or [-1]. *)
Fixpoint find_from (i : Z) (search target : string) : Z :=
  if startswith search target then i
  else match target with
       | EmptyString => (-1)%Z
       | String _ t => find_from (i + 1)%Z search t
       end.

Definition find (target search : string) : Z := find_from 0%Z search target.

Fixpoint lstrip (s : string) : string :=
  match s with
  | EmptyString => EmptyString
  | String c t => if is_space c then lstrip t else s
  end.

Fixpoint rstrip (s : string) : string :=
  match s with
  | EmptyString => EmptyString
  | String c t =>
      match rstrip t with
      | EmptyString => if is_space c then EmptyString else String c EmptyString
      | t' => String c t'
      end
  end.

(** [s.strip()] *)
Definition strip (s : string) : string := rstrip (lstrip s).

(** [s.split(c)] for a one-character separator: one piece more than there
    are separators, never the empty list. *)
Fixpoint split (c : ascii) (s : string) : list string :=
  match s with
  | EmptyString => [EmptyString]
  | String d t =>
      if Ascii.eqb c d then EmptyString :: split c t
      else match split c t with
           | [] => [String d EmptyString]
           | p :: ps => String d p :: ps
           end
  end.

(** [s.replace(old, new)] for a non-empty [old]; [skip] counts the
    characters of an occurrence of [old] still to be passed over. *)
Fixpoint replace_aux (old new s : string) (skip : nat) : string :=
  match skip with
  | S n =>
      match s with
      | EmptyString => EmptyString
      | String _ t => replace_aux old new t n
      end
  | O =>
      match s with
      | EmptyString => EmptyString
      | String c t =>
          if startswith old s
          then new ++ replace_aux old new t (String.length old - 1)
          else String c (replace_aux old new t 0)
      end
  end.

Definition replace (s old new : string) : string := replace_aux old new s 0.

(** [sep.join(parts)] *)
Fixpoint join (sep : string) (parts : list string) : string :=
  match parts with
  | [] => EmptyString
  | [p] => p
  | p :: ps => p ++ sep ++ join sep ps
  end.

(** *** Sorting and sets of strings *)

Definition str_in (x : string) (l : list string) : bool :=
  existsb (String.eqb x) l.

(** One copy of every element of [l]: the elements of [set(l)]. *)
Fixpoint dedup (l : list string) : list string :=
  match l with
  | [] => []
  | x :: t => if str_in x t then dedup t else x :: dedup t
  end.

Fixpoint insert_sorted (x : string) (l : list string) : list string :=
  match l with
  | [] => [x]
  | y :: t => if String.leb x y then x :: l else y :: insert_sorted x t
  end.

(** [sorted(l)] on strings: ascending code point order. *)
Definition sorted (l : list string) : list string :=
  fold_right insert_sorted [] l.

(** [sorted(set(l))] *)
Definition sorted_set (l : list string) : list string := sorted (dedup l).

End Py.

Import Py.

Declare Scope py_scope.
Notation "x <- m ;; k" := (bind m (fun x => k))
  (at level 61, m at next level, right associativity) : py_scope.
Open Scope py_scope.

(* ================================================================== *)
(** ** The fragment of [re] the script uses *)
(* ================================================================== *)

Module Re.

(** Patterns.  Repetition is only ever applied to a character class. *)
Inductive regex : Type :=
| Eps
| Chr (p : ascii -> bool)
| Seq (r1 r2 : regex)
| Alt (r1 r2 : regex)
| PlusGreedy (p : ascii -> bool)
| StarLazy (p : ascii -> bool)
| PlusLazy (p : ascii -> bool)
| Group (r : regex)
| WordBoundary
| Bol
| Eol.

(** The matcher's position: the character just before it (for [\b] and
    [^]), the text still ahead, and what group 1 has captured. *)
Record mstate : Type := MState {
  prev : option ascii;
  rest : string;
  cap : option string
}.

Definition cont := mstate -> option mstate.

(** [p*] trying the longest run first. *)
Fixpoint star_greedy (p : ascii -> bool) (k : cont)
    (pv : option ascii) (cp : option string) (s : string) : option mstate :=
  match s with
  | String c t =>
      if p c then
        match star_greedy p k (Some c) cp t with
        | Some m => Some m
        | None => k (MState pv s cp)
        end
      else k (MState pv s cp)
  | EmptyString => k (MState pv s cp)
  end.

(** [p*?] trying the shortest run first. *)
Fixpoint star_lazy (p : ascii -> bool) (k : cont)
    (pv : option ascii) (cp : option string) (s : string) : option mstate :=
  match k (MState pv s cp) with
  | Some m => Some m
  | None =>
      match s with
      | String c t => if p c then star_lazy p k (Some c) cp t else None
      | EmptyString => None
      end
  end.

Definition word_opt (c : option ascii) : bool :=
  match c with
  | Some c => is_word c
  | None => false
  end.

Definition head (s : string) : option ascii :=
  match s with
  | String c _ => Some c
  | EmptyString => None
  end.

Definition newline : string := String (ascii_of_nat 10) EmptyString.

(** Backtracking matcher in continuation-passing style: alternatives are
    tried in the order [re] tries them and the first success wins. *)
Fixpoint run (r : regex) (k : cont) (st : mstate) : option mstate :=
  match r with
  | Eps => k st
  | Chr p =>
      match rest st with
      | String c t => if p c then k (MState (Some c) t (cap st)) else None
      | EmptyString => None
      end
  | Seq r1 r2 => run r1 (run r2 k) st
  | Alt r1 r2 =>
      match run r1 k st with
      | Some m => Some m
      | None => run r2 k st
      end
  | PlusGreedy p =>
      match rest st with
      | String c t =>
          if p c then star_greedy p k (Some c) (cap st) t else None
      | EmptyString => None
      end
  | StarLazy p => star_lazy p k (prev st) (cap st) (rest st)
  | PlusLazy p =>
      match rest st with
      | String c t =>
          if p c then star_lazy p k (Some c) (cap st) t else None
      | EmptyString => None
      end
  | Group r1 =>
      run r1
        (fun st' =>
           let n := String.length (rest st) - String.length (rest st') in
           k (MState (prev st') (rest st') (Some (substring 0 n (rest st)))))
        st
  | WordBoundary =>
      if xorb (word_opt (prev st)) (word_opt (head (rest st)))
      then k st else None
  | Bol =>
      match prev st with
      | None => k st
      | Some _ => None
      end
  | Eol =>
      if String.eqb (rest st) EmptyString || String.eqb (rest st) newline
      then k st else None
  end.

(** One attempt at the current position. *)
Definition match_at (r : regex) (pv : option ascii) (s : string)
  : option mstate :=
  run r Some (MState pv s None).

(** [re.match(r, s)] *)
Definition match_ (r : regex) (s : string) : option mstate :=
  match_at r None s.

(** [re.search(r, s)]: the leftmost position with a match. *)
Fixpoint search_from (r : regex) (pv : option ascii) (s : string)
  : option mstate :=
  match match_at r pv s with
  | Some m => Some m
  | None =>
      match s with
      | String c t => search_from r (Some c) t
      | EmptyString => None
      end
  end.

Definition search (r : regex) (s : string) : option mstate :=
  search_from r None s.

(** [m.group(1)] *)
Definition group1 (m : mstate) : result string :=
  match cap m with
  | Some g => Ok g
  | None => Raise IndexError
  end.

(** [re.findall(r, s)] for a pattern with one group: the group of every
    match, scanning left to right and resuming where the last match
    ended.  [skip] counts the characters of the last match still to be
    passed over.  The patterns of the script never match the empty string;
    after an empty match the scan moves on by one character. *)
Fixpoint findall_aux (r : regex) (pv : option ascii) (s : string)
    (skip : nat) : list string :=
  match skip with
  | S n =>
      match s with
      | EmptyString => []
      | String c t => findall_aux r (Some c) t n
      end
  | O =>
      match match_at r pv s with
      | Some m =>
          let g := match cap m with Some g => g | None => EmptyString end in
          let used := String.length s - String.length (rest m) in
          g :: match s with
               | EmptyString => []
               | String c t => findall_aux r (Some c) t (used - 1)
               end
      | None =>
          match s with
          | EmptyString => []
          | String c t => findall_aux r (Some c) t 0
          end
      end
  end.

Definition findall (r : regex) (s : string) : list string :=
  findall_aux r None s 0.

(** A literal whose characters are compared by [eqc]. *)
Fixpoint chars (eqc : ascii -> ascii -> bool) (s : string) : regex :=
  match s with
  | EmptyString => Eps
  | String c t => Seq (Chr (eqc c)) (chars eqc t)
  end.

(** A literal under [re.IGNORECASE]. *)
Definition lit_ci : string -> regex := chars eq_ci.

(** A literal, case-sensitive. *)
Definition lit : string -> regex := chars Ascii.eqb.

(** [.] under [re.DOTALL] *)
Definition any (c : ascii) : bool := true.

End Re.

(* ================================================================== *)
(** ** Lexical extractor *)
(* ================================================================== *)

Module Extractor.
Import Re.

(** [r'SELECT\s+(.*?)\s+FROM'] with [re.DOTALL | re.IGNORECASE] *)
Definition select_pattern : regex :=
  Seq (lit_ci "SELECT")
    (Seq (PlusGreedy is_space)
       (Seq (Group (StarLazy any))
          (Seq (PlusGreedy is_space) (lit_ci "FROM")))).

(** [r'\bAS\b'] with [re.IGNORECASE] *)
Definition as_pattern : regex :=
  Seq WordBoundary (Seq (lit_ci "AS") WordBoundary).

(** [r'\bAS\s+(\w+)'] with [re.IGNORECASE] *)
Definition alias_pattern : regex :=
  Seq WordBoundary
    (Seq (lit_ci "AS")
       (Seq (PlusGreedy is_space) (Group (PlusGreedy is_word)))).

(** [r'STRFTIME|JSON_EXTRACT|datetime\('] with [re.IGNORECASE] *)
Definition computed_pattern : regex :=
  Alt (lit_ci "STRFTIME") (Alt (lit_ci "JSON_EXTRACT") (lit_ci "datetime(")).

(** [r'FROM\s+(\w+)'] with [re.IGNORECASE] *)
Definition table_pattern : regex :=
  Seq (lit_ci "FROM")
    (Seq (PlusGreedy is_space) (Group (PlusGreedy is_word))).

(** [r'CASE\s+WHEN(.+?)END'] with [re.DOTALL] *)
Definition case_pattern : regex :=
  Seq (lit "CASE")
    (Seq (PlusGreedy is_space)
       (Seq (lit "WHEN") (Seq (Group (PlusLazy any)) (lit "END")))).

Definition wildcard_marker : string := "* (all columns returned)".

Definition is_some {A} (o : option A) : bool :=
  match o with
  | Some _ => true
  | None => false
  end.

(** The body of the inner loop of [extract_attribute_names]: what one
    comma-separated clause appends to [attributes]. *)
Definition clause_attributes (item0 : string) : result (list string) :=
  let item := strip item0 in
  if contains_char "*" item then Ok [wildcard_marker]
  else if is_some (search as_pattern item) then
    match search alias_pattern item with
    | Some alias_match => g <- group1 alias_match ;; Ok [g]
    | None => Ok []
    end
  else if contains_char "." item then
    part <- index (split "." item) 1 ;; Ok [part]
  else if negb (is_some (search computed_pattern item)) then Ok [item]
  else Ok [].

Definition segment_attributes (segment : string) : result (list string) :=
  parts <- mapM clause_attributes (split "," segment) ;; Ok (List.concat parts).

Definition extract_attribute_names (sql : string) : result (list string) :=
  let select_segments := findall select_pattern sql in
  parts <- mapM segment_attributes select_segments ;; Ok (List.concat parts).

Definition extract_sql_details (sql_query : string)
  : result (list string * list string * list string) :=
  let tables_queried := findall table_pattern sql_query in
  extracted_attributes <- extract_attribute_names sql_query ;;
  let case_statements := findall case_pattern sql_query in
  let new_attributes :=
    map (fun case => "description: " ++ strip case) case_statements in
  Ok (tables_queried, extracted_attributes, new_attributes).

End Extractor.

Import Extractor.


(* ================================================================== *)
(** ** Record normalizer *)
(* ================================================================== *)

Module Normalizer.

(** A value [json.loads] leaves under a key, by what the script can do
    with it: a [str]; [None], for a JSON null; or a number, a boolean, a
    list or a dictionary, which the script hands on or fails on but never
    reads. *)
Inductive pyvalue : Type :=
| PyStr (s : string)
| PyNone
| PyOther.

(** The value under [name]: a [str], or [None] for a JSON null.  It is the
    key [groupby] groups by; a number, a boolean, a list or a dictionary
    under [name] is outside the model, for what pandas makes of such keys
    depends on the type it infers for the column. *)
Inductive pyname : Type :=
| NameStr (s : string)
| NameNone.

Definition pyname_eqb (a b : pyname) : bool :=
  match a, b with
  | NameStr s, NameStr t => String.eqb s t
  | NameNone, NameNone => true
  | _, _ => false
  end.

(** One item of [categories]: a dictionary, with the value under its
    [name] if it has one, or anything else. *)
Inductive category : Type :=
| CategoryObject (category_name : option pyvalue)
| CategoryOther.

(** The value under [categories]: something the comprehension can iterate
    over, or a null, a number or a boolean.  A string or a dictionary is
    iterated as its characters or its keys, which are strings: it is the
    list of that many [CategoryOther]. *)
Inductive categories_value : Type :=
| CategoryList (items : list category)
| NotIterable.

(** A [Query] payload that decoded to a dictionary.  A field is [None]
    when its key is absent. *)
Record query_json : Type := QueryJson {
  command : option pyvalue;
  name : option pyname;
  principalType : option pyvalue;
  queryId : option pyvalue;
  queryType : option pyvalue;
  categories : option categories_value
}.

(** The [Query] cell of a row, by what [pd.notnull] and [json.loads] make
    of it: a null cell; a cell that is no text (a number or a boolean, as
    [read_csv] types a column of such cells), on which [json.loads] raises
    [TypeError]; a text on which it raises [JSONDecodeError]; a text that
    decodes to something other than a dictionary (a string, a number, a
    list, a boolean, a null), which has no [get]; a text that decodes to a
    dictionary. *)
Inductive query_cell : Type :=
| Null
| NotText
| Malformed
| NotObject
| Decoded (payload : query_json).

(** One row of the combined data frame.  [Possible_Cases] is the list
    [ast.literal_eval] returns for the cell ([None] where it raises
    [ValueError] or [SyntaxError]); [Created_At] is
    [str(datetime.strptime(cell, "%Y-%m-%d"))] ([None] where [strptime]
    raises [ValueError]). *)
Record raw_record : Type := RawRecord {
  Query : query_cell;
  Possible_Cases : option (list string);
  Customer_ID : string;
  Region : string;
  Created_At : option string
}.

(** [d.get(key, default)] *)
Definition get {A} (field : option A) (default : A) : A :=
  match field with
  | Some v => v
  | None => default
  end.

Definition dquote : string := String (ascii_of_nat 34) EmptyString.
Definition backslash_n : string :=
  String (ascii_of_nat 92) (String "n" EmptyString).

(** The guarded [json.loads(query)] and the [get] that follows it, in the
    column functions and in the summary loop alike: the dictionary, [None]
    where the cell is null or [JSONDecodeError] is caught, and the exception
    that nothing catches otherwise. *)
Definition decode (query : query_cell) : result (option query_json) :=
  match query with
  | Null => Ok None
  | NotText => Raise TypeError
  | Malformed => Ok None
  | NotObject => Raise AttributeError
  | Decoded j => Ok (Some j)
  end.

Definition extract_name (query : query_cell) : result pyname :=
  decoded <- decode query ;;
  match decoded with
  | Some j => Ok (get (name j) (NameStr "Unnamed"))
  | None => Ok (NameStr "Unnamed")
  end.

(** [value.replace(old, new)] on a value that may be no [str]. *)
Definition value_replace (value : pyvalue) (old new : string)
  : result string :=
  match value with
  | PyStr s => Ok (replace s old new)
  | PyNone => Raise AttributeError
  | PyOther => Raise AttributeError
  end.

Definition extract_command (query : query_cell) : result string :=
  decoded <- decode query ;;
  match decoded with
  | Some j =>
      command_value <-
        value_replace (get (command j) (PyStr "SQL statement not available"))
                      backslash_n Re.newline ;;
      Ok (dquote ++ command_value ++ dquote)%string
  | None => Ok (dquote ++ "SQL statement not available" ++ dquote)%string
  end.

Definition extract_principal_type (query : query_cell) : result pyvalue :=
  decoded <- decode query ;;
  match decoded with
  | Some j => Ok (get (principalType j) (PyStr "Type not available"))
  | None => Ok (PyStr "Type not available")
  end.

Definition extract_query_id (query : query_cell) : result pyvalue :=
  decoded <- decode query ;;
  match decoded with
  | Some j => Ok (get (queryId j) (PyStr "ID not available"))
  | None => Ok (PyStr "ID not available")
  end.

Definition extract_query_type (query : query_cell) : result pyvalue :=
  decoded <- decode query ;;
  match decoded with
  | Some j => Ok (get (queryType j) (PyStr "Type not available"))
  | None => Ok (PyStr "Type not available")
  end.

(** [category.get('name', '')] *)
Definition category_get_name (c : category) : result pyvalue :=
  match c with
  | CategoryObject n => Ok (get n (PyStr ""))
  | CategoryOther => Raise AttributeError
  end.

(** An item handed to [str.join]. *)
Definition join_item (v : pyvalue) : result string :=
  match v with
  | PyStr s => Ok s
  | PyNone => Raise TypeError
  | PyOther => Raise TypeError
  end.

Definition extract_query_categories (query : query_cell) : result string :=
  decoded <- decode query ;;
  match decoded with
  | Some j =>
      match get (categories j) (CategoryList []) with
      | NotIterable => Raise TypeError
      | CategoryList cats =>
          names <- mapM category_get_name cats ;;
          items <- mapM join_item names ;;
          Ok (join ", " items)
      end
  | None => Ok "Categories not available"
  end.

End Normalizer.

Import Normalizer.

(* ================================================================== *)
(** ** Query summary and quarantine *)
(* ================================================================== *)

Module Summary.

(** One dictionary appended to [query_summary_data]. *)
Record facts_row : Type := FactsRow {
  f_query_name : pyname;
  f_os_query_table : list string;
  f_unique_osquery_table : list string;
  f_query_attributes : list string;
  f_unique_osquery_attributes : list string
}.

(** One row of the summary data frame once
    [_check_for_sql_parse_errors] has added its two columns. *)
Record summary_row : Type := SummaryRow {
  query_name : pyname;
  os_query_table : list string;
  unique_osquery_table : list string;
  query_attributes : list string;
  unique_osquery_attributes : list string;
  os_query_table_removed_items : list string;
  query_attributes_removed_items : list string
}.

Definition sql_keywords_to_log_and_remove : list string :=
  ["JSON_EACH"; "GROUP"; "GROUP_CONCAT"; "CHAR"; "SELECT"].

(** Tables: full match removal.  Returns [(filtered_list, removed_items)]. *)
Definition __remove_invalid_elements_and_track
    (lst elements : list string) : list string * list string :=
  let filtered_list := filter (fun item => negb (str_in item elements)) lst in
  let removed_items := filter (fun item => str_in item elements) lst in
  (filtered_list, removed_items).

(** [any(target.find(search) != -1 for search in elements)] *)
Definition any_found (target : string) (elements : list string) : bool :=
  existsb (fun search => negb (Z.eqb (find target search) (-1))) elements.

(** Attributes: substring removal.  Returns
    [(filtered_items, removed_items)]. *)
Definition __remove_invalid_elements_fuzzy_match_and_track
    (lst elements : list string) : list string * list string :=
  let removed_items := filter (fun target => any_found target elements) lst in
  let filtered_items :=
    filter (fun target => negb (any_found target elements)) lst in
  (filtered_items, removed_items).

Definition quarantine_row (r : facts_row) : summary_row :=
  let kw := sql_keywords_to_log_and_remove in
  {| query_name := f_query_name r;
     os_query_table_removed_items :=
       snd (__remove_invalid_elements_and_track (f_os_query_table r) kw);
     os_query_table :=
       fst (__remove_invalid_elements_and_track (f_os_query_table r) kw);
     unique_osquery_table :=
       fst (__remove_invalid_elements_and_track
              (f_unique_osquery_table r) kw);
     query_attributes_removed_items :=
       snd (__remove_invalid_elements_fuzzy_match_and_track
              (f_query_attributes r) kw);
     query_attributes :=
       fst (__remove_invalid_elements_fuzzy_match_and_track
              (f_query_attributes r) kw);
     unique_osquery_attributes :=
       fst (__remove_invalid_elements_fuzzy_match_and_track
              (f_unique_osquery_attributes r) kw) |}.

(** A frame built from no dictionaries has no columns, so the first
    column access raises [KeyError]. *)
Definition _check_for_sql_parse_errors (df : list facts_row)
  : result (list summary_row) :=
  match df with
  | [] => Raise (KeyError "os_query_table")
  | _ :: _ => Ok (map quarantine_row df)
  end.

(** [re] handed a value as the text to search: it raises [TypeError] on
    anything but a [str]. *)
Definition as_text (value : pyvalue) : result string :=
  match value with
  | PyStr s => Ok s
  | PyNone => Raise TypeError
  | PyOther => Raise TypeError
  end.

(** The body of the loop over the rows of the combined frame: the
    dictionaries one row appends. *)
Definition row_facts (row : raw_record) : result (list facts_row) :=
  decoded <- decode (Query row) ;;
  match decoded with
  | None => Ok []
  | Some query_json =>
      let sql_query := get (command query_json) (PyStr "") in
      let query_name := get (name query_json) (NameStr "Unnamed") in
      sql_text <- as_text sql_query ;;
      details <- extract_sql_details sql_text ;;
      let '(tables, attributes, _) := details in
      Ok [ {| f_query_name := query_name;
              f_os_query_table := tables;
              f_unique_osquery_table := sorted_set tables;
              f_query_attributes := attributes;
              f_unique_osquery_attributes := sorted_set attributes |} ]
  end.

(** Whether a row reaches the extractor: its cell is not null and decodes
    to a dictionary. *)
Definition decodable (row : raw_record) : bool :=
  match Query row with
  | Decoded _ => true
  | _ => false
  end.

(** Whether the record of a row is named: it decodes to a dictionary whose
    [name] is not a JSON null. *)
Definition named (row : raw_record) : bool :=
  match Query row with
  | Decoded j =>
      match name j with
      | Some NameNone => false
      | _ => true
      end
  | _ => false
  end.

(** The exception the loop body raises on a row, if it raises one:
    [TypeError] from [json.loads] on a cell that is no text,
    [AttributeError] from [get] on a payload that is no dictionary,
    [TypeError] from [re] on a command that is no string. *)
Definition row_error (row : raw_record) : option exn :=
  match Query row with
  | NotText => Some TypeError
  | NotObject => Some AttributeError
  | Decoded j =>
      match command j with
      | Some PyNone => Some TypeError
      | Some PyOther => Some TypeError
      | _ => None
      end
  | _ => None
  end.

(** The exception of the first row on which the loop body raises. *)
Fixpoint first_error (combined_df : list raw_record) : option exn :=
  match combined_df with
  | [] => None
  | row :: rest =>
      match row_error row with
      | Some e => Some e
      | None => first_error rest
      end
  end.

(** The dictionaries of [query_summary_data] that carry the name [q]. *)
Definition facts_members (q : string) (data : list facts_row)
  : list facts_row :=
  filter (fun r => pyname_eqb (f_query_name r) (NameStr q)) data.

(** [clean] and [removed] split [original]: the lengths add up, every
    occurrence went to one side, no token is on both sides, and a token
    missing from [clean] is in [removed]. *)
Definition partitions (clean removed original : list string) : Prop :=
  List.length removed + List.length clean = List.length original
  /\ Permutation (clean ++ removed)%list original
  /\ (forall t, In t removed -> ~ In t clean)
  /\ (forall t, In t original -> ~ In t clean -> In t removed).

Definition query_summary_data (combined_df : list raw_record)
  : result (list facts_row) :=
  parts <- mapM row_facts combined_df ;; Ok (List.concat parts).

Definition summarize_case_query_data (combined_df : list raw_record)
  : result (list summary_row) :=
  data <- query_summary_data combined_df ;;
  _check_for_sql_parse_errors data.

End Summary.

Import Summary.

(* ================================================================== *)
(** ** Attribute classifier *)
(* ================================================================== *)

Module Classifier.
Import Re.

Definition is_apostrophe (c : ascii) : bool := code c =? 39.
Definition is_underscore (c : ascii) : bool := code c =? 95.

(** [^C+$] for a character class [C] *)
Definition whole (cls : ascii -> bool) : regex :=
  Seq Bol (Seq (PlusGreedy cls) Eol).

(** The five alternatives of the first test. *)
Definition group_one_patterns : list regex :=
  [ whole (fun c => is_letter c || is_apostrophe c);
    whole is_letter;
    whole (fun c => is_letter c || is_underscore c);
    whole (fun c => is_letter c || is_digit c);
    whole (fun c => is_letter c || is_digit c || is_underscore c) ].

Definition matches_group_one (s : string) : bool :=
  existsb (fun r => is_some (match_ r s)) group_one_patterns.

(** [re.search(r"[a-zA-Z]", s)] *)
Definition has_letter (s : string) : bool :=
  is_some (search (Chr is_letter) s).

(** [re.search(r"\W", s)] *)
Definition has_non_word (s : string) : bool :=
  is_some (search (Chr (fun c => negb (is_word c))) s).

Inductive bucket : Type :=
| alphabetical_attributes
| alphabetical_and_non_numeric
| non_alphabetic
| not_sorted.

Definition bucket_eqb (a b : bucket) : bool :=
  match a, b with
  | alphabetical_attributes, alphabetical_attributes => true
  | alphabetical_and_non_numeric, alphabetical_and_non_numeric => true
  | non_alphabetic, non_alphabetic => true
  | not_sorted, not_sorted => true
  | _, _ => false
  end.

(** The [if]/[elif] chain of the loop body. *)
Definition classify (s : string) : bucket :=
  if matches_group_one s then alphabetical_attributes
  else if has_letter s && has_non_word s then alphabetical_and_non_numeric
  else if negb (has_letter s) then non_alphabetic
  else not_sorted.

Record groups : Type := Groups {
  group_one : list string;
  group_two : list string;
  group_three : list string;
  group_four : list string
}.

Definition append_to (g : groups) (s : string) : groups :=
  match classify s with
  | alphabetical_attributes =>
      Groups (group_one g ++ [s]) (group_two g) (group_three g) (group_four g)
  | alphabetical_and_non_numeric =>
      Groups (group_one g) (group_two g ++ [s]) (group_three g) (group_four g)
  | non_alphabetic =>
      Groups (group_one g) (group_two g) (group_three g ++ [s]) (group_four g)
  | not_sorted =>
      Groups (group_one g) (group_two g) (group_three g) (group_four g ++ [s])
  end.

Definition __sort_attributes_by_characters
    (unique_list_of_attributes : list string) : groups :=
  fold_left append_to unique_list_of_attributes (Groups [] [] [] []).

(** The list stored under a bucket's key in the result dictionary. *)
Definition bucket_of (g : groups) (b : bucket) : list string :=
  match b with
  | alphabetical_attributes => group_one g
  | alphabetical_and_non_numeric => group_two g
  | non_alphabetic => group_three g
  | not_sorted => group_four g
  end.

End Classifier.

Import Classifier.

(* ================================================================== *)
(** ** Report assembler *)
(* ================================================================== *)

Module Report.

(** Floating point values of the report, kept as the expression that
    computes them. *)
Inductive pyfloat : Type :=
| Round5Times100 (num den : nat)   (** [round(num / den, 5) * 100] *)
| RoundPercent2 (num den : nat).   (** [round((num / den) * 100, 2)] *)

(** What [json.dump] writes: dictionaries as objects in insertion order,
    lists and tuples as arrays. *)
#[warnings="-register-all"] Inductive json : Type :=
| JNull
| JInt (n : nat)
| JFloat (f : pyfloat)
| JStr (s : string)
| JArr (items : list json)
| JObj (members : list (string * json)).

Definition jstrs (l : list string) : json := JArr (map JStr l).

Definition keys {V} (d : list (string * V)) : list string := map fst d.

(** [d[k] = v] on a dictionary kept in insertion order. *)
Fixpoint dict_set {V} (k : string) (v : V) (d : list (string * V))
  : list (string * V) :=
  match d with
  | [] => [(k, v)]
  | (k', v') :: t =>
      if String.eqb k k' then (k', v) :: t else (k', v') :: dict_set k v t
  end.

Fixpoint dict_get {V} (k : string) (d : list (string * V)) : option V :=
  match d with
  | [] => None
  | (k', v') :: t => if String.eqb k k' then Some v' else dict_get k t
  end.

(** [sorted(l, key=key, reverse=True)]: descending and stable. *)
Fixpoint insert_desc {A K} (ltb : K -> K -> bool) (key : A -> K)
    (x : A) (l : list A) : list A :=
  match l with
  | [] => [x]
  | y :: t =>
      if ltb (key x) (key y) then y :: insert_desc ltb key x t else x :: l
  end.

Definition sorted_desc {A K} (ltb : K -> K -> bool) (key : A -> K)
    (l : list A) : list A :=
  fold_right (insert_desc ltb key) [] l.

Definition sum (l : list nat) : nat := fold_right Nat.add 0 l.

(** One row of the frame [_query_table_data] returns. *)
Record group_row : Type := GroupRow {
  g_query_name : string;
  table_list : list (list string);
  flattened_table_list : list string;
  g_os_query_table_removed_items : list string
}.

(** One dictionary of the list [osquery_query_summary_list]. *)
Record query_summary : Type := QuerySummary {
  qs_query_name : string;
  frequency_of_execution : nat;
  parsing_error_sql_content : list string;
  unique_tables_queried : list string
}.

(** The rows whose [query_name] equals [q], [None] included. *)
Definition rows_named (q : pyname) (df : list summary_row)
  : list summary_row :=
  filter (fun r => pyname_eqb (query_name r) q) df.

(** The rows of a group: those [groupby('query_name')] puts under [q]. *)
Definition members (q : string) (df : list summary_row) : list summary_row :=
  rows_named (NameStr q) df.

(** The keys [groupby] keeps of a column: it drops the rows whose key is
    [None]. *)
Definition dropna (column : list pyname) : list string :=
  flat_map (fun key => match key with
                       | NameStr s => [s]
                       | NameNone => []
                       end)
           column.

(** The group keys, sorted as [groupby] sorts them. *)
Definition group_keys (df : list summary_row) : list string :=
  sorted_set (dropna (map query_name df)).

Definition _flatten {A} (nested_lists : list (list A)) : list A :=
  List.concat nested_lists.

Definition _query_table_data (df : list summary_row) : list group_row :=
  map (fun q =>
         let rows := members q df in
         let tables := map unique_osquery_table rows in
         {| g_query_name := q;
            table_list := tables;
            flattened_table_list := _flatten tables;
            g_os_query_table_removed_items :=
              _flatten (map os_query_table_removed_items rows) |})
      (group_keys df).

Section Assembler.

(** [list(s)] for the set [s] of the given strings: the order in which a
    Python set is iterated is left open. *)
Variable list_of_set : list string -> list string.

(** [<] on the floating point values. *)
Variable float_ltb : pyfloat -> pyfloat -> bool.

(** *** Dataset statistics *)

Definition some_values {A} (l : list (option A)) : list A :=
  List.concat (map (fun o => match o with Some v => [v] | None => [] end) l).

Definition _case_counts (column : list (option (list string)))
  : nat * nat :=
  let value_lists := some_values column in
  (List.length (dedup (List.concat value_lists)),
   sum (map (@List.length string) value_lists)).

Definition _customer_counts (column : list string) : nat * nat :=
  (List.length (dedup (map strip column)), List.length column).

Definition _unique_region_list (column : list string) : list string :=
  list_of_set (map strip column).

Definition _date_range (column : list (option string)) : list string :=
  list_of_set (some_values column).

(** The enabled branch ends in [stats = {...},]: a one-element tuple
    around the dictionary, which [json.dump] writes as an array. *)
Definition add_osquery_data_stats_summary (summarize_osqueries : bool)
    (df_combined : list raw_record) : json :=
  if negb summarize_osqueries then JObj []
  else
    let '(unique_case_count, total_case_count) :=
      _case_counts (map Possible_Cases df_combined) in
    let '(unique_customer_count, total_customer_count) :=
      _customer_counts (map Customer_ID df_combined) in
    let stats :=
      [ JObj
          [ ("total_number_queries_analyzed", JInt (List.length df_combined));
            ("number_of_unique_cases", JInt unique_case_count);
            ("total_number_of_cases_analyzed", JInt total_case_count);
            ("number_of_unique_customers", JInt unique_customer_count);
            ("total_number_of_customers_analyzed",
             JInt total_customer_count);
            ("region_list",
             jstrs (_unique_region_list (map Region df_combined)));
            ("date_range",
             jstrs (_date_range (map Created_At df_combined))) ] ] in
    JArr stats.

(** *** Query analysis *)

Definition summarize_group (row : group_row) : query_summary :=
  {| qs_query_name := g_query_name row;
     frequency_of_execution := List.length (table_list row);
     parsing_error_sql_content :=
       if List.length (g_os_query_table_removed_items row) =? 0
       then ["None"]
       else g_os_query_table_removed_items row;
     unique_tables_queried := list_of_set (flattened_table_list row) |}.

Definition osquery_query_summary_list (df_summarized : list summary_row)
  : list query_summary :=
  map summarize_group (_query_table_data df_summarized).

(** The running total the loop keeps in [counter]. *)
Definition counter (df_summarized : list summary_row) : nat :=
  fold_left (fun c row => c + List.length (table_list row))
            (_query_table_data df_summarized) 0.

Definition __calculate_query_percentage
    (list_of_query_dicts : list query_summary) (total_query_count : nat)
  : list (query_summary * pyfloat) :=
  map (fun query_dict =>
         (query_dict,
          Round5Times100 (frequency_of_execution query_dict)
                         total_query_count))
      list_of_query_dicts.

Definition __create_queries_by_percentage
    (query_list : list (query_summary * pyfloat))
  : list (string * pyfloat) :=
  let queries_by_percentage :=
    fold_left (fun d each_query =>
                 dict_set (qs_query_name (fst each_query))
                          (snd each_query) d)
              query_list [] in
  sorted_desc float_ltb snd queries_by_percentage.

(** The value the inner loops leave under [key]: the nested dictionary of
    the last query so named, else the percentage already there. *)
Definition percentage_and_count
    (query_list : list (query_summary * pyfloat))
    (key : string) (percentage : pyfloat) : json :=
  fold_left
    (fun v query =>
       if String.eqb (qs_query_name (fst query)) key
       then JObj [ ("query_execution_percentage", JFloat (snd query));
                   ("query_execution_count",
                    JInt (frequency_of_execution (fst query))) ]
       else v)
    query_list (JFloat percentage).

Definition __create_queries_by_percentage_count
    (query_list : list (query_summary * pyfloat))
  : list (string * json) :=
  map (fun kv => (fst kv, percentage_and_count query_list (fst kv) (snd kv)))
      (__create_queries_by_percentage query_list).

Definition query_json (q : query_summary * pyfloat) : json :=
  JObj [ ("query_name", JStr (qs_query_name (fst q)));
         ("frequency_of_execution", JInt (frequency_of_execution (fst q)));
         ("parsing_error_sql_content",
          jstrs (parsing_error_sql_content (fst q)));
         ("unique_tables_queried", jstrs (unique_tables_queried (fst q)));
         ("query_execution_percentage", JFloat (snd q)) ].

Definition add_osquery_query_analysis_summary
    (summarize_queries_in_dataset : bool)
    (df_summarized : list summary_row) : json :=
  if negb summarize_queries_in_dataset then JObj []
  else
    let queries :=
      __calculate_query_percentage
        (osquery_query_summary_list df_summarized)
        (counter df_summarized) in
    JObj [ ("queries", JArr (map query_json queries));
           ("queries_by_percentage",
            JObj (map (fun kv => (fst kv, JFloat (snd kv)))
                      (__create_queries_by_percentage queries)));
           ("queries_by_percentage_count",
            JObj (__create_queries_by_percentage_count queries)) ].

(** *** Table analysis *)

Definition _create_unique_table_list (groups : list group_row)
  : list string :=
  sorted_set (List.concat (map flattened_table_list groups)).

(** [Counter(l)]: the counts, in order of first occurrence. *)
Definition incr (d : list (string * nat)) (k : string)
  : list (string * nat) :=
  match dict_get k d with
  | Some n => dict_set k (S n) d
  | None => dict_set k 1 d
  end.

Definition Counter (l : list string) : list (string * nat) :=
  fold_left incr l [].

Definition most_common (c : list (string * nat)) : list (string * nat) :=
  sorted_desc Nat.ltb snd c.

Definition _generate_total_table_query_counts (df : list summary_row)
  : list json :=
  let all_occurrences := List.concat (map os_query_table df) in
  let occurrence_count := Counter all_occurrences in
  let total_count := sum (map snd occurrence_count) in
  let percentage_count :=
    map (fun kv => (fst kv, JFloat (RoundPercent2 (snd kv) total_count)))
        (most_common occurrence_count) in
  [ JObj (map (fun kv => (fst kv, JInt (snd kv)))
              (most_common occurrence_count));
    JObj percentage_count ].

(** The entries [{'query_name': q, 'number_of_times_queried': n}] kept
    for one table: the first entry of the name is counted up, and a new
    entry goes last when the loop finds none.  The name is the one of the
    row, which may be [None]. *)
Fixpoint count_query (entries : list (pyname * nat)) (q : pyname)
  : list (pyname * nat) :=
  match entries with
  | [] => [(q, 1)]
  | (q', n) :: rest =>
      if pyname_eqb q' q then (q', S n) :: rest
      else (q', n) :: count_query rest q
  end.

Definition count_table (q : pyname)
    (result : list (string * list (pyname * nat))) (query_table : string)
  : list (string * list (pyname * nat)) :=
  match dict_get query_table result with
  | Some entries => dict_set query_table (count_query entries q) result
  | None => dict_set query_table (count_query [] q) result
  end.

Definition total_queries (entries : list (pyname * nat)) : nat :=
  sum (map snd entries).

(** [json.dump] of a name: [None] is written as [null]. *)
Definition name_json (q : pyname) : json :=
  match q with
  | NameStr s => JStr s
  | NameNone => JNull
  end.

Definition entry_json (e : pyname * nat) : json :=
  JObj [ ("query_name", name_json (fst e));
         ("number_of_times_queried", JInt (snd e)) ].

Definition _generate_table_counts_by_query (df : list summary_row)
  : list (string * json) :=
  let result :=
    fold_left (fun res row =>
                 fold_left (count_table (query_name row))
                           (os_query_table row) res)
              df [] in
  let sorted_data :=
    sorted_desc Nat.ltb (fun item => total_queries (snd item)) result in
  map (fun item =>
         (fst item,
          JArr (JObj [("total_queries", JInt (total_queries (snd item)))]
                  :: map entry_json (snd item))))
      sorted_data.

(** The parameter is never read: the body has no test of it. *)
Definition add_osquery_table_analysis_summary
    (summarize_tables_in_dataet : bool)
    (df_summarized : list summary_row) : json :=
  let query_table_group_summary_df := _query_table_data df_summarized in
  JObj [ ("unique_table_list",
          jstrs (_create_unique_table_list query_table_group_summary_df));
         ("total_table_query_count",
          JArr (_generate_total_table_query_counts df_summarized));
         ("table_counts_by_queries",
          JObj (_generate_table_counts_by_query df_summarized)) ].

(** *** Attribute analysis *)

Definition __create_unique_attribute_list (df : list summary_row)
  : list string :=
  sorted_set (List.concat (map unique_osquery_attributes df)).

Definition add_osquery_attribute_analysis_summary
    (summarize_attributes_in_dataset : bool)
    (df_summarized : list summary_row) : json :=
  if negb summarize_attributes_in_dataset then JObj []
  else
    let osquery_unique_attribute_list :=
      __create_unique_attribute_list df_summarized in
    let sorted_groups :=
      __sort_attributes_by_characters osquery_unique_attribute_list in
    JObj [ ("valid_attributes", jstrs (group_one sorted_groups));
           ("valid_attributes_and_sql", jstrs (group_two sorted_groups));
           ("invalid_attributes", jstrs (group_three sorted_groups));
           ("not_sorted", jstrs (group_four sorted_groups));
           ("unique_attribute_list", jstrs osquery_unique_attribute_list);
           ("incorrectly_parsed_attributes", JArr []) ].

(** *** The exported document *)

Definition export_views_to_json
    (df_combined : list raw_record) (df_summarized : list summary_row)
    (summarize_osqueries summarize_queries_in_dataset
     summarize_attributes_in_dataset summarize_tables_in_dataset : bool)
  : json :=
  JObj
    [ ("osquery_summary",
       JObj
         [ ("os_query_data_analysis_stats",
            add_osquery_data_stats_summary summarize_osqueries df_combined);
           ("os_query_input_query_summary",
            add_osquery_query_analysis_summary
              summarize_queries_in_dataset df_summarized);
           ("os_query_table_analysis_summary",
            add_osquery_table_analysis_summary
              summarize_tables_in_dataset df_summarized);
           ("os_query_attribute_analysis_summary",
            add_osquery_attribute_analysis_summary
              summarize_attributes_in_dataset df_summarized) ]) ].

End Assembler.

(** Reading the document back. *)
Definition member (k : string) (j : json) : option json :=
  match j with
  | JObj ms => dict_get k ms
  | _ => None
  end.

Definition is_object (j : json) : bool :=
  match j with
  | JObj _ => true
  | _ => false
  end.

Definition object_keys (j : json) : list string :=
  match j with
  | JObj ms => keys ms
  | _ => []
  end.

End Report.

Import Report.

(* ================================================================== *)
(** ** The row cap of a dataset *)
(* ================================================================== *)

Module Config.

(** The value of [load_nrows] as the YAML file gives it: absent or null, a
    text, or an integer. *)
Inductive yaml_value : Type :=
| YamlNone
| YamlStr (s : string)
| YamlInt (z : Z).

(** The blanks [int] skips around a numeral. *)
Definition int_space (c : ascii) : bool :=
  in_range 9 13 c || (code c =? 32) || (code c =? 133) || (code c =? 160).

Fixpoint lstrip_by (sp : ascii -> bool) (s : string) : string :=
  match s with
  | EmptyString => EmptyString
  | String c t => if sp c then lstrip_by sp t else s
  end.

Fixpoint rstrip_by (sp : ascii -> bool) (s : string) : string :=
  match s with
  | EmptyString => EmptyString
  | String c t =>
      match rstrip_by sp t with
      | EmptyString => if sp c then EmptyString else String c EmptyString
      | t' => String c t'
      end
  end.

(** Digits with single underscores between them; [after_digit] tells
    whether the last character read was a digit. *)
Fixpoint parse_digits (s : string) (acc : Z) (after_digit : bool) : option Z :=
  match s with
  | EmptyString => if after_digit then Some acc else None
  | String c t =>
      if is_digit c
      then parse_digits t (acc * 10 + Z.of_nat (code c - 48)) true
      else if (code c =? 95) && after_digit then parse_digits t acc false
      else None
  end.

(** The most digits [int] converts from a text: CPython's default
    [sys.int_max_str_digits]. *)
Definition int_max_str_digits : nat := 4300.

(** The number of digits of a text, leading zeros included. *)
Fixpoint count_digits (s : string) : nat :=
  match s with
  | EmptyString => 0
  | String c t => (if is_digit c then 1 else 0) + count_digits t
  end.

(** [int(s)] for a text; [None] stands for [ValueError], which a text
    that is no numeral raises, and so does one of more digits than the
    limit. *)
Definition int_of_str (s : string) : option Z :=
  if int_max_str_digits <? count_digits s then None
  else
    match lstrip_by int_space s with
    | String c t =>
        if code c =? 43 then parse_digits (rstrip_by int_space t) 0 false
        else if code c =? 45
        then option_map Z.opp (parse_digits (rstrip_by int_space t) 0 false)
        else parse_digits (rstrip_by int_space (String c t)) 0 false
    | EmptyString => None
    end.

(** [None] means that all rows are loaded. *)
Definition parse_nrows (nrows : yaml_value) : option Z :=
  match nrows with
  | YamlNone => None
  | YamlStr s => if String.eqb s EmptyString then None else int_of_str s
  | YamlInt z => Some z
  end.

End Config.

(* ================================================================== *)
(** ** The columns of the combined frame *)
(* ================================================================== *)

Module Columns.

(** What the column handling of [load_and_process_columns] can raise:
    [KeyError] from [combined_df['Query']] and [ValueError] from
    [list.index]. *)
Inductive col_exn : Type :=
| ColumnKeyError (column : string)
| ListValueError.

(** [df[name] = values] on the column labels: an existing column is
    overwritten where it is, a new one goes last. *)
Definition assign (name : string) (columns : list string) : list string :=
  if str_in name columns then columns else columns ++ [name].

(** [l.index(x, start)]; [None] stands for [ValueError]. *)
Fixpoint list_index (x : string) (l : list string) (start : nat) : option nat :=
  match l with
  | [] => None
  | y :: t =>
      match start with
      | O => if String.eqb y x then Some 0
             else option_map S (list_index x t 0)
      | S n => option_map S (list_index x t n)
      end
  end.

(** [l.insert(i, x)] *)
Definition insert (i : nat) (x : string) (l : list string) : list string :=
  firstn i l ++ x :: skipn i l.

(** [l.pop(i)] for an index of the list: the list that is left. *)
Definition pop (i : nat) (l : list string) : list string :=
  firstn i l ++ skipn (S i) l.

(** The columns assigned from the [Query] column, in order. *)
Definition extracted_columns : list string :=
  [ "extracted_name"; "extracted_sql_statement"; "extracted_principal_type";
    "extracted_query_id"; "extracted_query_type";
    "extracted_query_categories" ].

(** The column labels of [combined_df] after the six assignments and the
    move of [extracted_name] next to [Query]. *)
Definition reordered_columns (columns : list string)
  : col_exn + list string :=
  if negb (str_in "Query" columns) then inl (ColumnKeyError "Query")
  else
    let cols := fold_left (fun c name => assign name c)
                          extracted_columns columns in
    match list_index "Query" cols 0 with
    | None => inl ListValueError
    | Some i =>
        let extracted_name_index := i + 1 in
        let cols := insert extracted_name_index "extracted_name" cols in
        match list_index "extracted_name" cols (extracted_name_index + 1) with
        | None => inl ListValueError
        | Some j => inr (pop j cols)
        end
    end.

End Columns.

(* ================================================================== *)
(** ** Orders on the report's lists *)
(* ================================================================== *)

(** Strictly ascending in code point order: sorted, and no string twice. *)
Definition ascending (l : list string) : Prop :=
  StronglySorted (fun a b => String.ltb a b = true) l.

(** Counts in descending order, equal counts allowed. *)
Definition descending {A} (count : A -> nat) (l : list A) : Prop :=
  StronglySorted (fun a b => count b <= count a) l.

(* ================================================================== *)
(** ** The table counts, step by step *)
(* ================================================================== *)

(** The pairs (query name, table) in the order in which the two nested loops
    of [_generate_table_counts_by_query] meet them. *)
Definition query_table_pairs (df : list summary_row) : list (pyname * string) :=
  flat_map (fun row => map (pair (query_name row)) (os_query_table row)) df.

(** The dictionary [result] of [_generate_table_counts_by_query] once the
    loops are through, before the totals are put in front. *)
Definition table_query_counts (df : list summary_row)
  : list (string * list (pyname * nat)) :=
  fold_left (fun res row =>
               fold_left (count_table (query_name row)) (os_query_table row) res)
            df [].

(** The number stored under [k], 0 when [k] is not a key. *)
Definition stored (d : list (string * nat)) (k : string) : nat :=
  match dict_get k d with
  | Some n => n
  | None => 0
  end.


(** Every stored count is positive. *)
Definition positive (d : list (string * nat)) : Prop :=
  forall k n, dict_get k d = Some n -> 1 <= n.

(** The number an entry list holds for the name [q], 0 when it has no
    entry of that name. *)
Fixpoint queried (entries : list (pyname * nat)) (q : pyname) : nat :=
  match entries with
  | [] => 0
  | (q', n) :: rest => if pyname_eqb q' q then n else queried rest q
  end.

(** How often the pair of [q] and [t] is among [ps]. *)
Definition pair_count (q : pyname) (t : string) (ps : list (pyname * string))
  : nat :=
  count_occ string_dec
    (map snd (filter (fun p => pyname_eqb (fst p) q) ps)) t.

(** What the loops have established once the pairs [ps] are counted into
    [res]: the keys are the tables met, each once, and under a table are the
    positive counts of its queries, adding up to its occurrences. *)
Definition counted (res : list (string * list (pyname * nat)))
    (ps : list (pyname * string)) : Prop :=
  NoDup (keys res)
  /\ (forall t, In t (keys res) <-> In t (map snd ps))
  /\ (forall t entries,
        dict_get t res = Some entries ->
        NoDup (map fst entries)
        /\ (forall q n, In (q, n) entries -> 1 <= n)
        /\ (forall q, queried entries q = pair_count q t ps)
        /\ total_queries entries = count_occ string_dec (map snd ps) t).

(* ================================================================== *)
(** ** Sample data *)
(* ================================================================== *)

Module Samples.

Definition payload (query_name sql : string) : query_cell :=
  Decoded (QueryJson (Some (PyStr sql)) (Some (NameStr query_name))
                     None None None None).

(** A payload whose [name] is a JSON null. *)
Definition unnamed_payload (sql : string) : query_cell :=
  Decoded (QueryJson (Some (PyStr sql)) (Some NameNone) None None None None).

Definition row (cell : query_cell) : raw_record :=
  RawRecord cell (Some ["case-1"]) "customer-1" "us-west"
            (Some "2024-12-27 00:00:00").

(** Five records: three decode, one is malformed, one is null. *)
Definition combined_df : list raw_record :=
  [ row (payload "Q1" "SELECT GROUP_CONCAT(k), a.b, name FROM JSON_EACH");
    row Malformed;
    row (payload "Q1" "SELECT pid FROM processes");
    row Null;
    row (payload "Q2" "SELECT * FROM users") ].

(** The frame [summarize_case_query_data] returns for [combined_df]. *)
Definition summary : list summary_row :=
  match summarize_case_query_data combined_df with
  | Ok df => df
  | Raise _ => []
  end.

(** Two records, the second malformed. *)
Definition with_malformed : list raw_record :=
  [ row (payload "Q1" "SELECT pid FROM processes"); row Malformed ].

(** Two records that decode, the first with a null name. *)
Definition with_null_name : list raw_record :=
  [ row (unnamed_payload "SELECT uid FROM users");
    row (payload "Q1" "SELECT pid FROM processes") ].

(** The frame [summarize_case_query_data] returns for [with_null_name]. *)
Definition null_name_summary : list summary_row :=
  match summarize_case_query_data with_null_name with
  | Ok df => df
  | Raise _ => []
  end.

(** A text of [n] digits. *)
Fixpoint ones (n : nat) : string :=
  match n with
  | O => EmptyString
  | S k => String "1" (ones k)
  end.

End Samples.

(* ================================================================== *)
(** ** Facts about the builtins *)
(* ================================================================== *)

Section StringFacts.

Lemma append_assoc (a b c : string) :
  ((a ++ b) ++ c = a ++ (b ++ c))%string.
Proof. induction a as [|x a IH]; simpl; [reflexivity | now rewrite IH]. Qed.

Lemma append_empty_r (a : string) : (a ++ "")%string = a.
Proof. induction a as [|x a IH]; simpl; [reflexivity | now rewrite IH]. Qed.

Lemma is_suffix_refl s : is_suffix s s.
Proof. now exists EmptyString. Qed.

Lemma is_suffix_tail c t s : is_suffix (String c t) s -> is_suffix t s.
Proof.
  intros [pre ->]. exists (pre ++ String c EmptyString)%string.
  now rewrite append_assoc.
Qed.

Lemma is_suffix_trans a b c : is_suffix a b -> is_suffix b c -> is_suffix a c.
Proof.
  intros [p ->] [q ->]. exists (q ++ p)%string. now rewrite append_assoc.
Qed.

Lemma is_suffix_cons c t s : is_suffix t s -> is_suffix t (String c s).
Proof. intros [pre ->]. now exists (String c pre). Qed.

Lemma startswith_iff p s :
  startswith p s = true <-> exists post, s = (p ++ post)%string.
Proof.
  unfold startswith. revert s.
  induction p as [|a p IH]; intros s; simpl.
  - split; [now exists s | reflexivity].
  - destruct s as [|b s].
    + split; [discriminate | intros [post H]; discriminate].
    + rewrite andb_true_iff, IH, Ascii.eqb_eq. split.
      * intros [-> [post ->]]. now exists post.
      * intros [post H]. injection H as -> ->. split; [reflexivity|].
        now exists post.
Qed.

Lemma occurs_iff p s :
  occurs p s = true <-> exists pre post, s = (pre ++ p ++ post)%string.
Proof.
  unfold occurs.
  induction s as [|c s IH]; simpl.
  - rewrite orb_false_r. fold (startswith p ""). rewrite startswith_iff.
    split.
    + intros [post H]. now exists EmptyString, post.
    + intros [pre [post H]]. destruct pre; [now exists post | discriminate].
  - rewrite orb_true_iff, IH. fold (startswith p (String c s)).
    rewrite startswith_iff. split.
    + intros [[post H] | [pre [post H]]].
      * now exists EmptyString, post.
      * exists (String c pre), post. simpl. now rewrite H.
    + intros [pre [post H]]. destruct pre as [|d pre]; simpl in H.
      * left. now exists post.
      * right. injection H as _ H. now exists pre, post.
Qed.

Lemma occurs_by_suffix eqc p t s :
  startswith_by eqc p t = true -> is_suffix t s -> occurs_by eqc p s = true.
Proof.
  intros Hp [pre ->].
  induction pre as [|c pre IH]; simpl.
  - destruct t; simpl; rewrite Hp; reflexivity.
  - rewrite IH. apply orb_true_r.
Qed.

Lemma find_from_lower i p s :
  (0 <= i)%Z -> find_from i p s = (-1)%Z \/ (i <= find_from i p s)%Z.
Proof.
  revert i. induction s as [|c s IH]; intros i Hi; simpl.
  - destruct (startswith p ""); [right|left]; lia.
  - destruct (startswith p (String c s)); [right; lia|].
    destruct (IH (i + 1)%Z ltac:(lia)) as [H|H]; [now left | right; lia].
Qed.

Lemma find_from_occurs i p s :
  (0 <= i)%Z -> find_from i p s <> (-1)%Z <-> occurs p s = true.
Proof.
  unfold occurs. revert i.
  induction s as [|c s IH]; intros i Hi; simpl.
  - fold (startswith p ""). destruct (startswith p ""); simpl.
    + split; intros; [reflexivity | lia].
    + split; intros H; [now contradiction H | discriminate].
  - fold (startswith p (String c s)).
    destruct (startswith p (String c s)); simpl.
    + split; intros; [reflexivity | lia].
    + apply IH. lia.
Qed.

(** [target.find(search) != -1] says that [search] is a substring of
    [target]. *)
Lemma find_spec target search :
  find target search <> (-1)%Z
  <-> exists pre post, target = (pre ++ search ++ post)%string.
Proof.
  unfold find. rewrite find_from_occurs by lia. apply occurs_iff.
Qed.

Lemma split_nonempty c s : split c s <> [].
Proof.
  destruct s as [|d s]; simpl; [discriminate|].
  destruct (Ascii.eqb c d); [discriminate|].
  destruct (split c s); discriminate.
Qed.

(** A string that contains the separator splits in at least two. *)
Lemma split_two c s :
  contains_char c s = true -> 2 <= List.length (split c s).
Proof.
  induction s as [|d s IH]; simpl; [discriminate|].
  destruct (Ascii.eqb c d); simpl.
  - intros _. pose proof (split_nonempty c s).
    destruct (split c s); [congruence | simpl; lia].
  - intros H. specialize (IH H).
    destruct (split c s); simpl in *; lia.
Qed.

Lemma index_in_bounds {A} (l : list A) i :
  i < List.length l -> exists x, index l i = Ok x.
Proof.
  intros H. unfold index.
  destruct (nth_error l i) eqn:E; [now eexists|].
  apply nth_error_None in E. lia.
Qed.

Lemma mapM_ok {A B} (f : A -> result B) (l : list A) :
  (forall x, In x l -> exists y, f x = Ok y) -> exists ys, mapM f l = Ok ys.
Proof.
  induction l as [|x l IH]; intros H; simpl; [now eexists|].
  destruct (H x (or_introl eq_refl)) as [y ->]. simpl.
  destruct IH as [ys ->]; [intros; apply H; now right|].
  simpl. now eexists.
Qed.

End StringFacts.

(* ================================================================== *)
(** ** Facts about the matcher *)
(* ================================================================== *)

Section MatcherFacts.
Import Re.

Lemma star_greedy_cont p k pv cp s m :
  star_greedy p k pv cp s = Some m ->
  exists st', k st' = Some m /\ is_suffix (rest st') s.
Proof.
  revert pv. induction s as [|c s IH]; intros pv; simpl.
  - intros H. eexists; split; [exact H | apply is_suffix_refl].
  - destruct (p c).
    + destruct (star_greedy p k (Some c) cp s) eqn:E.
      * intros [= ->]. destruct (IH _ E) as [st' [H1 H2]].
        exists st'. split; [assumption | now apply is_suffix_cons].
      * intros H. eexists; split; [exact H | apply is_suffix_refl].
    + intros H. eexists; split; [exact H | apply is_suffix_refl].
Qed.

Lemma star_lazy_cont p k pv cp s m :
  star_lazy p k pv cp s = Some m ->
  exists st', k st' = Some m /\ is_suffix (rest st') s.
Proof.
  revert pv. induction s as [|c s IH]; intros pv; simpl.
  - destruct (k (MState pv "" cp)) eqn:E; [|discriminate].
    intros [= ->]. eexists; split; [exact E | apply is_suffix_refl].
  - destruct (k (MState pv (String c s) cp)) eqn:E.
    + intros [= ->]. eexists; split; [exact E | apply is_suffix_refl].
    + destruct (p c); [|discriminate]. intros H.
      destruct (IH _ H) as [st' [H1 H2]].
      exists st'. split; [assumption | now apply is_suffix_cons].
Qed.

(** A successful run hands over to its continuation somewhere further on
    in the text. *)
Lemma run_cont r : forall k st m,
  run r k st = Some m ->
  exists st', k st' = Some m /\ is_suffix (rest st') (rest st).
Proof.
  induction r as [|p|r1 IH1 r2 IH2|r1 IH1 r2 IH2|p|p|p|r1 IH1| | |];
    intros k st m; simpl.
  - intros H. exists st. split; [assumption | apply is_suffix_refl].
  - destruct (rest st) as [|c t]; [discriminate|].
    destruct (p c); [|discriminate]. intros H.
    eexists; split; [exact H|]. simpl.
    apply is_suffix_cons, is_suffix_refl.
  - intros H. destruct (IH1 _ _ _ H) as [st1 [H1 S1]].
    destruct (IH2 _ _ _ H1) as [st2 [H2 S2]].
    exists st2. split; [assumption | eapply is_suffix_trans; eassumption].
  - destruct (run r1 k st) eqn:E.
    + intros [= ->]. now apply IH1.
    + apply IH2.
  - destruct (rest st) as [|c t]; [discriminate|].
    destruct (p c); [|discriminate]. intros H.
    destruct (star_greedy_cont _ _ _ _ _ _ H) as [st' [H1 H2]].
    exists st'. split; [assumption | now apply is_suffix_cons].
  - apply star_lazy_cont.
  - destruct (rest st) as [|c t]; [discriminate|].
    destruct (p c); [|discriminate]. intros H.
    destruct (star_lazy_cont _ _ _ _ _ _ H) as [st' [H1 H2]].
    exists st'. split; [assumption | now apply is_suffix_cons].
  - intros H. destruct (IH1 _ _ _ H) as [st' [H1 H2]].
    eexists; split; [exact H1 | exact H2].
  - destruct (xorb _ _); [|discriminate]. intros H.
    exists st. split; [assumption | apply is_suffix_refl].
  - destruct (prev st); [discriminate|]. intros H.
    exists st. split; [assumption | apply is_suffix_refl].
  - destruct (_ || _); [|discriminate]. intros H.
    exists st. split; [assumption | apply is_suffix_refl].
Qed.

(** A literal only matches where the text starts with it. *)
Lemma chars_cont eqc p : forall k st m,
  run (chars eqc p) k st = Some m -> startswith_by eqc p (rest st) = true.
Proof.
  induction p as [|c p IH]; intros k st m; simpl; [reflexivity|].
  destruct (rest st) as [|d t]; [discriminate|].
  destruct (eqc c d); [|discriminate]. intros H.
  apply IH in H. exact H.
Qed.

(** A group that was run leaves a capture. *)
Lemma group_cap r st m : run (Group r) Some st = Some m -> cap m <> None.
Proof.
  simpl. intros H. apply run_cont in H. destruct H as [st' [H _]].
  injection H as <-. discriminate.
Qed.

Lemma search_from_found r : forall s pv m,
  search_from r pv s = Some m ->
  exists pv' t, is_suffix t s /\ match_at r pv' t = Some m.
Proof.
  induction s as [|c s IH]; intros pv m; simpl.
  - destruct (match_at r pv "") eqn:E; [|discriminate].
    intros [= ->]. exists pv, EmptyString. split; [apply is_suffix_refl | assumption].
  - destruct (match_at r pv (String c s)) eqn:E.
    + intros [= ->]. exists pv, (String c s).
      split; [apply is_suffix_refl | assumption].
    + intros H. destruct (IH _ _ H) as [pv' [t [H1 H2]]].
      exists pv', t. split; [now apply is_suffix_cons | assumption].
Qed.

(** Where no position of the text matches, [findall] finds nothing. *)
Lemma findall_aux_nil r : forall s,
  (forall pv t, is_suffix t s -> match_at r pv t = None) ->
  forall pv skip, findall_aux r pv s skip = [].
Proof.
  induction s as [|c s IH]; intros H pv skip.
  - destruct skip; simpl; [|reflexivity].
    now rewrite (H pv EmptyString (is_suffix_refl _)).
  - assert (Hs : forall pv t, is_suffix t s -> match_at r pv t = None).
    { intros pv' t Ht. apply H. now apply is_suffix_cons. }
    destruct skip; simpl.
    + rewrite (H pv (String c s) (is_suffix_refl _)). now apply IH.
    + now apply IH.
Qed.

Lemma findall_nil r s :
  (forall pv t, is_suffix t s -> match_at r pv t = None) -> findall r s = [].
Proof. intros H. now apply findall_aux_nil. Qed.

End MatcherFacts.

(* ================================================================== *)
(** ** The extractor *)
(* ================================================================== *)

Section ExtractorFacts.
Import Re.

Lemma run_seq r1 r2 k st : run (Seq r1 r2) k st = run r1 (run r2 k) st.
Proof. reflexivity. Qed.

(** Peel the first component off a sequence that matched. *)
Ltac peel H st S :=
  rewrite run_seq in H; apply run_cont in H; destruct H as [st [H S]].

Lemma alias_match_has_group s m :
  search alias_pattern s = Some m -> cap m <> None.
Proof.
  intros H. apply search_from_found in H.
  destruct H as [pv [t [_ H]]].
  unfold match_at, alias_pattern in H.
  peel H st1 S1. peel H st2 S2. peel H st3 S3.
  now apply group_cap in H.
Qed.

Lemma table_pattern_from pv t m :
  match_at table_pattern pv t = Some m ->
  startswith_by eq_ci "FROM" t = true.
Proof.
  unfold match_at, table_pattern. rewrite run_seq. intros H.
  now apply chars_cont in H.
Qed.

Lemma select_pattern_select pv t m :
  match_at select_pattern pv t = Some m ->
  startswith_by eq_ci "SELECT" t = true.
Proof.
  unfold match_at, select_pattern. rewrite run_seq. intros H.
  now apply chars_cont in H.
Qed.

Lemma select_pattern_from pv t m :
  match_at select_pattern pv t = Some m ->
  exists u, is_suffix u t /\ startswith_by eq_ci "FROM" u = true.
Proof.
  unfold match_at, select_pattern. intros H.
  peel H st1 S1. peel H st2 S2. peel H st3 S3. peel H st4 S4.
  apply chars_cont in H. exists (rest st4). split; [|assumption].
  simpl in S1.
  eauto using is_suffix_trans.
Qed.

Lemma case_pattern_end pv t m :
  match_at case_pattern pv t = Some m ->
  exists u, is_suffix u t /\ startswith "END" u = true.
Proof.
  unfold match_at, case_pattern. intros H.
  peel H st1 S1. peel H st2 S2. peel H st3 S3. peel H st4 S4.
  apply chars_cont in H. exists (rest st4). split; [|assumption].
  simpl in S1.
  eauto using is_suffix_trans.
Qed.

Lemma no_from_no_tables sql :
  occurs_ci "FROM" sql = false -> findall table_pattern sql = [].
Proof.
  intros H. apply findall_nil. intros pv t Ht.
  destruct (match_at table_pattern pv t) eqn:E; [|reflexivity].
  apply table_pattern_from in E.
  unfold occurs_ci in H. now rewrite (occurs_by_suffix _ _ _ _ E Ht) in H.
Qed.

Lemma no_from_no_segments sql :
  occurs_ci "FROM" sql = false -> findall select_pattern sql = [].
Proof.
  intros H. apply findall_nil. intros pv t Ht.
  destruct (match_at select_pattern pv t) eqn:E; [|reflexivity].
  apply select_pattern_from in E. destruct E as [u [Hu E]].
  unfold occurs_ci in H.
  now rewrite (occurs_by_suffix _ _ _ _ E (is_suffix_trans _ _ _ Hu Ht)) in H.
Qed.

Lemma no_select_no_segments sql :
  occurs_ci "SELECT" sql = false -> findall select_pattern sql = [].
Proof.
  intros H. apply findall_nil. intros pv t Ht.
  destruct (match_at select_pattern pv t) eqn:E; [|reflexivity].
  apply select_pattern_select in E.
  unfold occurs_ci in H. now rewrite (occurs_by_suffix _ _ _ _ E Ht) in H.
Qed.

Lemma no_end_no_cases sql :
  occurs "END" sql = false -> findall case_pattern sql = [].
Proof.
  intros H. apply findall_nil. intros pv t Ht.
  destruct (match_at case_pattern pv t) eqn:E; [|reflexivity].
  apply case_pattern_end in E. destruct E as [u [Hu E]].
  unfold occurs in H.
  now rewrite (occurs_by_suffix _ _ _ _ E (is_suffix_trans _ _ _ Hu Ht)) in H.
Qed.

(** The subscript [item.split('.')[1]] is only reached when the clause
    holds a dot, and then it is in bounds. *)
Lemma dot_subscript_in_bounds item :
  contains_char "." item = true ->
  exists part, index (split "." item) 1 = Ok part.
Proof. intros H. apply index_in_bounds. now apply split_two. Qed.

Lemma clause_attributes_ok item : exists l, clause_attributes item = Ok l.
Proof.
  unfold clause_attributes.
  destruct (contains_char "*" (strip item)); [now eexists|].
  destruct (is_some (search as_pattern (strip item))).
  - destruct (search alias_pattern (strip item)) as [m|] eqn:E;
      [|now eexists].
    apply alias_match_has_group in E. unfold group1.
    destruct (cap m); [simpl; now eexists | congruence].
  - destruct (contains_char "." (strip item)) eqn:D.
    + destruct (dot_subscript_in_bounds _ D) as [part ->].
      simpl. now eexists.
    + destruct (negb _); now eexists.
Qed.

Lemma segment_attributes_ok segment :
  exists l, segment_attributes segment = Ok l.
Proof.
  unfold segment_attributes.
  destruct (mapM_ok clause_attributes (split "," segment)) as [ys ->].
  - intros x _. apply clause_attributes_ok.
  - simpl. now eexists.
Qed.

Lemma extract_attribute_names_ok sql :
  exists l, extract_attribute_names sql = Ok l.
Proof.
  unfold extract_attribute_names.
  destruct (mapM_ok segment_attributes (findall select_pattern sql))
    as [ys ->].
  - intros x _. apply segment_attributes_ok.
  - simpl. now eexists.
Qed.

Lemma extract_attribute_names_no_segment sql :
  findall select_pattern sql = [] -> extract_attribute_names sql = Ok [].
Proof. unfold extract_attribute_names. now intros ->. Qed.

Lemma extract_sql_details_ok sql :
  exists attributes,
    extract_attribute_names sql = Ok attributes
    /\ extract_sql_details sql =
         Ok (findall table_pattern sql, attributes,
             map (fun case => ("description: " ++ strip case)%string)
                 (findall case_pattern sql)).
Proof.
  destruct (extract_attribute_names_ok sql) as [l E].
  exists l. split; [assumption|].
  unfold extract_sql_details. now rewrite E.
Qed.

End ExtractorFacts.

Example extract_alias :
  extract_sql_details "SELECT a, b AS bb FROM t" = Ok (["t"], ["a"; "bb"], []).
Proof. vm_compute. reflexivity. Qed.

Example extract_wildcard :
  extract_sql_details "SELECT * FROM uptime WHERE 1=0"
  = Ok (["uptime"], [wildcard_marker], []).
Proof. vm_compute. reflexivity. Qed.

Example extract_qualified :
  extract_attribute_names "SELECT s.name, p.cmdline FROM services AS s"
  = Ok ["name"; "cmdline"].
Proof. vm_compute. reflexivity. Qed.

Example extract_case :
  extract_sql_details "select x from y where CASE  WHEN a THEN b END"
  = Ok (["y"], ["x"], ["description: a THEN b"]).
Proof. vm_compute. reflexivity. Qed.

(** What a clause with a dot, no [*] and no [AS] appends: the second piece
    of the split. *)
Lemma dotted_clause_emits_second_piece item :
  contains_char "*" (strip item) = false ->
  Re.search as_pattern (strip item) = None ->
  contains_char "." (strip item) = true ->
  exists part,
    nth_error (split "." (strip item)) 1 = Some part
    /\ clause_attributes item = Ok [part].
Proof.
  intros Hstar Has Hdot.
  destruct (dot_subscript_in_bounds _ Hdot) as [part E].
  exists part. split.
  - unfold index in E.
    destruct (nth_error (split "." (strip item)) 1); congruence.
  - unfold clause_attributes. rewrite Hstar, Has, Hdot.
    cbn [is_some]. now rewrite E.
Qed.

(** C9.  A clause with two dots, no [*] and no [AS]: the extractor emits the
    piece between the first and the second dot, [b], where the part after
    the first dot is [b.c]. *)
Theorem extract_attribute_names_two_dots :
  contains_char "*" "a.b.c" = false
  /\ Re.search as_pattern "a.b.c" = None
  /\ contains_char "." "a.b.c" = true
  /\ clause_attributes "a.b.c" = Ok ["b"]
  /\ extract_attribute_names "SELECT a.b.c FROM t" = Ok ["b"].
Proof. vm_compute. repeat split; reflexivity. Qed.

(** C10.  On every string the extractor returns a triple of lists and
    raises nothing; a text without FROM gives no tables and no attributes, a
    text without SELECT no attributes, a text without END no case
    descriptions; and the subscript taken after splitting a clause that
    holds a dot is in bounds. *)
Theorem extract_sql_details_total (sql : string) :
  exists tables attributes descriptions,
    extract_sql_details sql = Ok (tables, attributes, descriptions)
    /\ (occurs_ci "FROM" sql = false -> tables = [] /\ attributes = [])
    /\ (occurs_ci "SELECT" sql = false -> attributes = [])
    /\ (Re.findall select_pattern sql = [] -> attributes = [])
    /\ (occurs "END" sql = false -> descriptions = [])
    /\ (forall item, contains_char "." item = true ->
          exists part, index (split "." item) 1 = Ok part).
Proof.
  destruct (extract_sql_details_ok sql) as [attributes [Ha H]].
  do 3 eexists. split; [exact H|].
  assert (Hspan : Re.findall select_pattern sql = [] -> attributes = []).
  { intros F. rewrite (extract_attribute_names_no_segment sql F) in Ha.
    congruence. }
  split; [|split; [|split; [|split]]].
  - intros F. split; [now apply no_from_no_tables|].
    now apply Hspan, no_from_no_segments.
  - intros F. now apply Hspan, no_select_no_segments.
  - exact Hspan.
  - intros F. now rewrite no_end_no_cases.
  - apply dot_subscript_in_bounds.
Qed.

Lemma extract_sql_details_total_witness :
  extract_sql_details "SHOW TABLES" = Ok ([], [], []).
Proof.
  destruct (extract_sql_details_total "SHOW TABLES")
    as (t & a & d & H & Hfrom & _ & _ & Hend & _).
  rewrite H.
  destruct (Hfrom eq_refl) as [-> ->].
  rewrite (Hend eq_refl).
  reflexivity.
Defined.

(* ================================================================== *)
(** ** Quarantine *)
(* ================================================================== *)

Open Scope list_scope.

Section QuarantineFacts.

Lemma str_in_iff x l : str_in x l = true <-> In x l.
Proof.
  unfold str_in. rewrite existsb_exists. split.
  - intros [y [Hy E]]. apply String.eqb_eq in E. now subst.
  - intros H. exists x. split; [assumption | apply String.eqb_refl].
Qed.

(** [any_found] holds exactly when some element is a substring. *)
Lemma any_found_iff target elements :
  any_found target elements = true
  <-> exists search, In search elements
      /\ exists pre post, target = (pre ++ search ++ post)%string.
Proof.
  unfold any_found. rewrite existsb_exists.
  split; intros [k [Hk H]]; exists k; (split; [assumption|]).
  - apply find_spec. intros E. rewrite E in H. discriminate.
  - apply find_spec in H. destruct (Z.eqb_spec (find target k) (-1)).
    + contradiction.
    + reflexivity.
Qed.

(** Splitting a list by a test and its negation loses nothing. *)
Lemma filter_split_perm {A} (f : A -> bool) (l : list A) :
  Permutation (filter (fun x => negb (f x)) l ++ filter f l) l.
Proof.
  induction l as [|x l IH]; simpl; [constructor|].
  destruct (f x); simpl.
  - apply Permutation_sym, Permutation_cons_app, Permutation_sym, IH.
  - now constructor.
Qed.

Lemma concat_split_perm {A R} (f : A -> bool) (proj : R -> list A)
    (rows : list R) :
  Permutation
    (List.concat (map (fun r => filter (fun x => negb (f x)) (proj r)) rows)
     ++ List.concat (map (fun r => filter f (proj r)) rows))
    (List.concat (map proj rows)).
Proof.
  induction rows as [|r rows IH]; simpl; [constructor|].
  set (c := filter (fun x => negb (f x)) (proj r)).
  set (d := filter f (proj r)).
  set (C := List.concat (map (fun r => filter (fun x => negb (f x)) (proj r)) rows)) in *.
  set (D := List.concat (map (fun r => filter f (proj r)) rows)) in *.
  transitivity ((c ++ d) ++ (C ++ D)).
  - rewrite <- !app_assoc. apply Permutation_app_head.
    rewrite !app_assoc. apply Permutation_app_tail.
    apply Permutation_app_comm.
  - apply Permutation_app; [apply filter_split_perm | exact IH].
Qed.

Lemma in_concat_filter {A R} (f : A -> bool) (proj : R -> list A)
    (rows : list R) x :
  In x (List.concat (map (fun r => filter f (proj r)) rows)) -> f x = true.
Proof.
  rewrite in_concat. intros [l [Hl Hx]].
  apply in_map_iff in Hl. destruct Hl as [r [<- _]].
  now apply filter_In in Hx.
Qed.

Lemma members_quarantine q data :
  members q (map quarantine_row data)
  = map quarantine_row (facts_members q data).
Proof.
  unfold members, rows_named, facts_members.
  induction data as [|r data IH]; simpl; [reflexivity|].
  destruct (pyname_eqb (f_query_name r) (NameStr q)); simpl; now rewrite IH.
Qed.

(** The partition of one column over the rows of a group. *)
Lemma group_split {R} (f : string -> bool) (proj : R -> list string)
    (rows : list R) :
  partitions
    (List.concat (map (fun r => filter (fun x => negb (f x)) (proj r)) rows))
    (List.concat (map (fun r => filter f (proj r)) rows))
    (List.concat (map proj rows)).
Proof.
  pose proof (concat_split_perm f proj rows) as P.
  split; [|split; [exact P | split]].
  - apply Permutation_length in P. rewrite length_app in P. lia.
  - intros t Hr Hc. apply in_concat_filter in Hr.
    apply (in_concat_filter (fun x => negb (f x))) in Hc.
    rewrite Hr in Hc. discriminate.
  - intros t Ho Hc.
    apply (Permutation_in _ (Permutation_sym P)) in Ho.
    apply in_app_or in Ho. tauto.
Qed.

(** A token that the cleaning of the deduplicated column dropped is in the
    removed list of the full column. *)
Lemma unique_dropped_is_removed {R} (f : string -> bool)
    (proj uniq : R -> list string) (rows : list R) t :
  (forall r x, In r rows -> In x (uniq r) -> In x (proj r)) ->
  In t (List.concat (map uniq rows)) ->
  ~ In t (List.concat (map (fun r => filter (fun x => negb (f x)) (uniq r)) rows)) ->
  In t (List.concat (map (fun r => filter f (proj r)) rows)).
Proof.
  intros Hu Ht Hc.
  apply in_concat in Ht. destruct Ht as [l [Hl Ht]].
  apply in_map_iff in Hl. destruct Hl as [r [<- Hr]].
  destruct (f t) eqn:E.
  - apply in_concat. exists (filter f (proj r)). split.
    + apply in_map_iff. now exists r.
    + apply filter_In. split; [now apply (Hu r) | assumption].
  - exfalso. apply Hc. apply in_concat.
    exists (filter (fun x => negb (f x)) (uniq r)). split.
    + apply in_map_iff. now exists r.
    + apply filter_In. split; [assumption | now rewrite E].
Qed.

End QuarantineFacts.

(* ================================================================== *)
(** ** Sorting and sets *)
(* ================================================================== *)

Section SortedFacts.

Lemma insert_sorted_perm x l : Permutation (insert_sorted x l) (x :: l).
Proof.
  induction l as [|y l IH]; simpl; [reflexivity|].
  destruct (String.leb x y); [reflexivity|].
  rewrite IH. apply perm_swap.
Qed.

Lemma sorted_perm l : Permutation (sorted l) l.
Proof.
  induction l as [|x l IH]; simpl; [constructor|].
  rewrite insert_sorted_perm. now constructor.
Qed.

Lemma dedup_in x l : In x (dedup l) <-> In x l.
Proof.
  induction l as [|y l IH]; simpl; [tauto|].
  destruct (str_in y l) eqn:E; simpl; rewrite IH.
  - apply str_in_iff in E. split; [tauto | intros [<-|H]; assumption].
  - tauto.
Qed.

Lemma dedup_nodup l : NoDup (dedup l).
Proof.
  induction l as [|y l IH]; simpl; [constructor|].
  destruct (str_in y l) eqn:E; [assumption|].
  constructor; [|assumption].
  rewrite dedup_in, <- str_in_iff, E. discriminate.
Qed.

Lemma sorted_set_in x l : In x (sorted_set l) <-> In x l.
Proof.
  unfold sorted_set. split; intros H.
  - apply dedup_in. revert H. apply Permutation_in, sorted_perm.
  - apply dedup_in in H. revert H.
    apply Permutation_in, Permutation_sym, sorted_perm.
Qed.

Lemma sorted_set_nodup l : NoDup (sorted_set l).
Proof.
  unfold sorted_set.
  eapply Permutation_NoDup; [apply Permutation_sym, sorted_perm|].
  apply dedup_nodup.
Qed.

End SortedFacts.

(* ================================================================== *)
(** ** The query summary *)
(* ================================================================== *)

Section SummaryFacts.

(** The loop body raises what [row_error] tells; a row on which it does not
    raise appends one dictionary if it decodes, and none otherwise. *)
Lemma row_facts_ok row :
  match row_error row with
  | Some e => row_facts row = Raise e
  | None =>
      exists l, row_facts row = Ok l
        /\ List.length l = (if decodable row then 1 else 0)
        /\ map (fun r => Ok (f_query_name r)) l
           = map (fun row => extract_name (Query row))
                 (filter decodable [row])
        /\ (forall r, In r l ->
              f_unique_osquery_table r = sorted_set (f_os_query_table r)
              /\ f_unique_osquery_attributes r
                 = sorted_set (f_query_attributes r))
  end.
Proof.
  unfold row_error, row_facts, decodable, extract_name. simpl.
  destruct (Query row) as [| | | |j] eqn:Q; simpl; try reflexivity;
    try (exists []; simpl; repeat split; contradiction).
  destruct (command j) as [[sql| |]|]; simpl; try reflexivity.
  - destruct (extract_sql_details_ok sql) as [a [_ ->]].
    simpl. eexists. split; [reflexivity|]. split; [reflexivity|].
    split; [now rewrite Q|]. intros r [<-|[]]. split; reflexivity.
  - eexists. split; [reflexivity|]. split; [reflexivity|].
    split; [now rewrite Q|]. intros r [<-|[]]. split; reflexivity.
Qed.

(** The loop raises what the first raising row raises; when no row raises,
    it collects one dictionary for each row that decodes. *)
Lemma query_summary_data_ok combined_df :
  match first_error combined_df with
  | Some e => query_summary_data combined_df = Raise e
  | None =>
      exists data, query_summary_data combined_df = Ok data
        /\ List.length data = List.length (filter decodable combined_df)
        /\ map (fun r => Ok (f_query_name r)) data
           = map (fun row => extract_name (Query row))
                 (filter decodable combined_df)
        /\ (forall r, In r data ->
              f_unique_osquery_table r = sorted_set (f_os_query_table r)
              /\ f_unique_osquery_attributes r
                 = sorted_set (f_query_attributes r))
  end.
Proof.
  unfold query_summary_data.
  induction combined_df as [|row ds IH]; simpl.
  - exists []. repeat split; contradiction.
  - pose proof (row_facts_ok row) as R.
    destruct (row_error row) as [e|]; [now rewrite R|].
    destruct R as [l [-> [Hl [Hn Hu]]]]. simpl.
    destruct (first_error ds) as [e|].
    + destruct (mapM row_facts ds) as [parts|e']; simpl in *; congruence.
    + destruct IH as [data [E [Hd [Hnd Hud]]]].
      destruct (mapM row_facts ds) as [parts|e]; [|discriminate].
      simpl in E. injection E as <-. simpl.
      exists (l ++ List.concat parts). split; [reflexivity|]. split; [|split].
      * rewrite length_app, Hd, Hl. destruct (decodable row); reflexivity.
      * rewrite map_app, Hn, Hnd. simpl.
        destruct (decodable row); reflexivity.
      * intros r Hr. apply in_app_or in Hr. destruct Hr; auto.
Qed.

(** A frame comes back only from a dataset on which no row raises. *)
Lemma query_summary_data_inv combined_df data :
  query_summary_data combined_df = Ok data ->
  first_error combined_df = None
  /\ List.length data = List.length (filter decodable combined_df)
  /\ map (fun r => Ok (f_query_name r)) data
     = map (fun row => extract_name (Query row))
           (filter decodable combined_df)
  /\ (forall r, In r data ->
        f_unique_osquery_table r = sorted_set (f_os_query_table r)
        /\ f_unique_osquery_attributes r
           = sorted_set (f_query_attributes r)).
Proof.
  intros H. pose proof (query_summary_data_ok combined_df) as R.
  destruct (first_error combined_df) as [e|]; [congruence|].
  destruct R as [data' [E R]]. rewrite H in E. injection E as <-.
  split; [reflexivity | exact R].
Qed.

(** A row that does not decode leaves no trace in [query_summary_data]. *)
Lemma query_summary_data_skip pre row post :
  row_facts row = Ok [] ->
  query_summary_data (pre ++ row :: post) = query_summary_data (pre ++ post).
Proof.
  intros E.
  unfold query_summary_data.
  induction pre as [|a pre IH]; simpl.
  - rewrite E. simpl. destruct (mapM row_facts post); reflexivity.
  - destruct (row_facts a) as [l|e]; simpl; [|reflexivity].
    destruct (mapM row_facts (pre ++ row :: post)) as [p1|e1];
      destruct (mapM row_facts (pre ++ post)) as [p2|e2];
      simpl in *; congruence.
Qed.

Lemma summarize_inv combined_df df :
  summarize_case_query_data combined_df = Ok df ->
  exists data, query_summary_data combined_df = Ok data
    /\ df = map quarantine_row data
    /\ List.length df = List.length (filter decodable combined_df)
    /\ (forall r, In r data ->
          f_unique_osquery_table r = sorted_set (f_os_query_table r)
          /\ f_unique_osquery_attributes r
             = sorted_set (f_query_attributes r)).
Proof.
  unfold summarize_case_query_data.
  destruct (query_summary_data combined_df) as [data|e] eqn:E; [|discriminate].
  destruct (query_summary_data_inv _ _ E) as (_ & Hl & _ & Hu).
  simpl. unfold _check_for_sql_parse_errors.
  destruct data as [|r data]; [discriminate|].
  intros [= <-]. exists (r :: data).
  split; [reflexivity|]. split; [reflexivity|]. split; [|assumption].
  rewrite <- Hl. apply (length_map quarantine_row (r :: data)).
Qed.

(** The names of a summary are the names of the records that decode. *)
Lemma summarize_names combined_df df :
  summarize_case_query_data combined_df = Ok df ->
  map (fun r => Ok (query_name r)) df
  = map (fun row => extract_name (Query row)) (filter decodable combined_df).
Proof.
  intros H. destruct (summarize_inv _ _ H) as [data [E [-> _]]].
  destruct (query_summary_data_inv _ _ E) as (_ & _ & Hn & _).
  now rewrite map_map.
Qed.

End SummaryFacts.

(** C3.  For every group of the summary, the cleaned and the removed token
    lists split the lists the extractor returned for the group's records,
    for the tables and for the attributes: the lengths add up, no occurrence
    is lost, no token is on both sides; and a token that the cleaning of a
    deduplicated list dropped is in the removed list of its column. *)
Theorem quarantine_partitions_group
    (combined_df : list raw_record) (df : list summary_row) (q : string) :
  summarize_case_query_data combined_df = Ok df ->
  exists data,
    query_summary_data combined_df = Ok data
    /\ partitions
         (List.concat (map os_query_table (members q df)))
         (List.concat (map os_query_table_removed_items (members q df)))
         (List.concat (map f_os_query_table (facts_members q data)))
    /\ partitions
         (List.concat (map query_attributes (members q df)))
         (List.concat (map query_attributes_removed_items (members q df)))
         (List.concat (map f_query_attributes (facts_members q data)))
    /\ (forall t,
          In t (List.concat (map f_unique_osquery_table (facts_members q data))) ->
          ~ In t (List.concat (map unique_osquery_table (members q df))) ->
          In t (List.concat (map os_query_table_removed_items (members q df))))
    /\ (forall t,
          In t (List.concat
                  (map f_unique_osquery_attributes (facts_members q data))) ->
          ~ In t (List.concat (map unique_osquery_attributes (members q df))) ->
          In t (List.concat
                  (map query_attributes_removed_items (members q df)))).
Proof.
  intros H. apply summarize_inv in H.
  destruct H as [data [E [-> [_ Hu]]]].
  exists data. split; [exact E|].
  rewrite members_quarantine, !map_map. simpl.
  assert (Hg : forall r, In r (facts_members q data) -> In r data).
  { intros r Hr. unfold facts_members in Hr. apply filter_In in Hr. tauto. }
  split; [|split; [|split]].
  - apply (group_split (fun x => str_in x sql_keywords_to_log_and_remove)).
  - apply (group_split (fun x => any_found x sql_keywords_to_log_and_remove)).
  - intros t. apply unique_dropped_is_removed.
    intros r x Hr Hx. destruct (Hu r (Hg r Hr)) as [U _].
    rewrite U in Hx. exact (proj1 (sorted_set_in _ _) Hx).
  - intros t. apply unique_dropped_is_removed.
    intros r x Hr Hx. destruct (Hu r (Hg r Hr)) as [_ U].
    rewrite U in Hx. exact (proj1 (sorted_set_in _ _) Hx).
Qed.

Example sample_summary :
  Samples.summary =
  [ {| query_name := NameStr "Q1";
       os_query_table := [];
       unique_osquery_table := [];
       query_attributes := ["b"; "name"];
       unique_osquery_attributes := ["b"; "name"];
       os_query_table_removed_items := ["JSON_EACH"];
       query_attributes_removed_items := ["GROUP_CONCAT(k)"] |};
    {| query_name := NameStr "Q1";
       os_query_table := ["processes"];
       unique_osquery_table := ["processes"];
       query_attributes := ["pid"];
       unique_osquery_attributes := ["pid"];
       os_query_table_removed_items := [];
       query_attributes_removed_items := [] |};
    {| query_name := NameStr "Q2";
       os_query_table := ["users"];
       unique_osquery_table := ["users"];
       query_attributes := [wildcard_marker];
       unique_osquery_attributes := [wildcard_marker];
       os_query_table_removed_items := [];
       query_attributes_removed_items := [] |} ].
Proof. vm_compute. reflexivity. Qed.

Lemma quarantine_partitions_group_witness :
  List.length
    (List.concat (map os_query_table_removed_items
                      (members "Q1" Samples.summary)))
  + List.length (List.concat (map os_query_table (members "Q1" Samples.summary)))
  = 2.
Proof.
  assert (H : summarize_case_query_data Samples.combined_df
              = Ok Samples.summary) by (vm_compute; reflexivity).
  destruct (quarantine_partitions_group Samples.combined_df Samples.summary
              "Q1" H) as (data & E & [L _] & _).
  vm_compute in E. injection E as <-. exact L.
Defined.

(** C4, as the code has it.  An attribute goes to the removed list exactly
    when one of the keywords is a substring of it, character for character;
    it stays in the clean list exactly when none is.  A table is removed
    exactly when it equals a keyword. *)
Theorem fuzzy_match_is_exact_case_substring (lst : list string) (a : string) :
  let kw := sql_keywords_to_log_and_remove in
  let contains_keyword :=
    exists k, In k kw /\ exists pre post, a = (pre ++ k ++ post)%string in
  (In a (snd (__remove_invalid_elements_fuzzy_match_and_track lst kw))
   <-> In a lst /\ contains_keyword)
  /\ (In a (fst (__remove_invalid_elements_fuzzy_match_and_track lst kw))
      <-> In a lst /\ ~ contains_keyword)
  /\ (In a (snd (__remove_invalid_elements_and_track lst kw))
      <-> In a lst /\ In a kw)
  /\ (In a (fst (__remove_invalid_elements_and_track lst kw))
      <-> In a lst /\ ~ In a kw).
Proof.
  intros kw contains_keyword.
  unfold __remove_invalid_elements_fuzzy_match_and_track,
    __remove_invalid_elements_and_track.
  cbn [fst snd]. rewrite !filter_In, !negb_true_iff.
  assert (F : any_found a kw = true <-> contains_keyword)
    by apply any_found_iff.
  assert (G : str_in a kw = true <-> In a kw) by apply str_in_iff.
  assert (F' : any_found a kw = false <-> ~ contains_keyword).
  { rewrite <- F. destruct (any_found a kw); split; congruence. }
  assert (G' : str_in a kw = false <-> ~ In a kw).
  { rewrite <- G. destruct (str_in a kw); split; congruence. }
  rewrite F, F', G, G'. tauto.
Qed.

(** C4 as stated fails: [char] contains the keyword [CHAR] when case is
    ignored, and is not removed. *)
Lemma fuzzy_match_ignores_case_counterexample :
  In "CHAR" sql_keywords_to_log_and_remove
  /\ occurs_ci "CHAR" "char" = true
  /\ __remove_invalid_elements_fuzzy_match_and_track
       ["char"] sql_keywords_to_log_and_remove
     = (["char"], []).
Proof.
  split; [simpl; tauto|]. split; vm_compute; reflexivity.
Qed.

(* ================================================================== *)
(** ** Grouping *)
(* ================================================================== *)

Section GroupFacts.

Lemma sum_map_add {A} (f g : A -> nat) l :
  sum (map (fun x => f x + g x) l) = sum (map f l) + sum (map g l).
Proof. induction l as [|x l IH]; simpl; [reflexivity | rewrite IH; lia]. Qed.

(** Among keys without repetition, one key equals a name they hold. *)
Lemma sum_indicator n keys :
  NoDup keys -> In n keys ->
  sum (map (fun q => if String.eqb n q then 1 else 0) keys) = 1.
Proof.
  induction 1 as [|k keys Hk Hnd IH]; intros Hin; [contradiction|].
  simpl. destruct (String.eqb_spec n k) as [->|Hne].
  - f_equal. clear IH Hnd Hin.
    induction keys as [|k' keys IH]; simpl; [reflexivity|].
    destruct (String.eqb_spec k k') as [->|_].
    + exfalso. apply Hk. now left.
    + apply IH. intros H. apply Hk. now right.
  - destruct Hin as [->|Hin]; [contradiction|]. now apply IH.
Qed.

(** The sizes of the groups add up to the number of rows that have a
    key: the rows whose name is [None] are in no group. *)
Lemma sum_members keys df :
  NoDup keys -> (forall q, In q (dropna (map query_name df)) -> In q keys) ->
  sum (map (fun q => List.length (members q df)) keys)
  = List.length (dropna (map query_name df)).
Proof.
  intros Hnd. induction df as [|r df IH]; intros Hin.
  - clear Hnd Hin. induction keys; simpl; [reflexivity | assumption].
  - unfold members, rows_named in *. simpl in *.
    destruct (query_name r) as [n|]; simpl in *.
    + transitivity
        (sum (map (fun q =>
                     (if String.eqb n q then 1 else 0)
                     + List.length
                         (filter (fun r0 => pyname_eqb (query_name r0)
                                                       (NameStr q)) df))
                  keys)).
      * f_equal. apply map_ext. intros q.
        destruct (String.eqb n q); reflexivity.
      * rewrite sum_map_add, sum_indicator, IH; auto.
    + apply IH. exact Hin.
Qed.

Lemma fold_left_add {A} (f : A -> nat) l n :
  fold_left (fun c x => c + f x) l n = n + sum (map f l).
Proof.
  revert n. induction l as [|x l IH]; intros n; simpl; [lia|].
  rewrite IH. lia.
Qed.

Lemma frequencies_sum list_of_set df :
  sum (map frequency_of_execution (osquery_query_summary_list list_of_set df))
  = List.length (dropna (map query_name df)).
Proof.
  unfold osquery_query_summary_list, _query_table_data.
  rewrite !map_map. simpl.
  rewrite <- (sum_members (group_keys df) df).
  - f_equal. apply map_ext. intros q. apply length_map.
  - apply sorted_set_nodup.
  - intros q Hq. now apply sorted_set_in.
Qed.

Lemma counter_sum df : counter df = List.length (dropna (map query_name df)).
Proof.
  unfold counter. rewrite fold_left_add. simpl.
  rewrite <- (frequencies_sum dedup df).
  unfold osquery_query_summary_list. now rewrite !map_map.
Qed.

(** Of the records that decode, those with a key are the named ones. *)
Lemma named_count rows : forall names,
  map Ok names
  = map (fun row => extract_name (Query row)) (filter decodable rows) ->
  List.length (dropna names) = List.length (filter named rows).
Proof.
  induction rows as [|row rows IH]; intros names H; simpl in *.
  - now destruct names.
  - unfold decodable, named in *.
    destruct (Query row) as [| | | |j] eqn:Q; try (now apply IH).
    destruct names as [|n names]; [discriminate|]. simpl in H.
    rewrite Q in H. unfold extract_name in H. simpl in H.
    injection H as Hn H. subst n.
    destruct (name j) as [[s|]|]; simpl; rewrite (IH _ H); reflexivity.
Qed.

Lemma dropna_length_le names : List.length (dropna names) <= List.length names.
Proof.
  induction names as [|[s|] names IH]; simpl; lia.
Qed.

Lemma summary_named_count combined_df df :
  summarize_case_query_data combined_df = Ok df ->
  List.length (dropna (map query_name df))
  = List.length (filter named combined_df).
Proof.
  intros H. apply named_count. rewrite map_map.
  now apply summarize_names.
Qed.

End GroupFacts.

(** C1, as the code has it.  The frequencies of the groups add up to the
    number of records that decode to a dictionary and whose name is not a
    JSON null: [groupby] puts a row with the name [None] in no group.  That
    number is the total the percentages divide by; it is at most the number
    of rows of the summary, which has one row for each record that decodes,
    and the records that do not decode are counted nowhere. *)
Theorem frequency_sum_is_named_count
    (list_of_set : list string -> list string)
    (combined_df : list raw_record) (df : list summary_row) :
  summarize_case_query_data combined_df = Ok df ->
  sum (map frequency_of_execution (osquery_query_summary_list list_of_set df))
  = List.length (filter named combined_df)
  /\ counter df = List.length (filter named combined_df)
  /\ List.length df = List.length (filter decodable combined_df)
  /\ List.length (filter named combined_df) <= List.length df
  /\ List.length df <= List.length combined_df.
Proof.
  intros H. pose proof (summary_named_count _ _ H) as N.
  pose proof (dropna_length_le (map query_name df)) as B.
  rewrite length_map in B.
  apply summarize_inv in H. destruct H as [data [_ [_ [L _]]]].
  rewrite frequencies_sum, counter_sum, <- N.
  repeat split; auto. rewrite L. apply filter_length_le.
Qed.

Lemma frequency_sum_is_named_count_witness :
  sum (map frequency_of_execution
           (osquery_query_summary_list dedup Samples.null_name_summary)) = 1
  /\ List.length Samples.null_name_summary = 2.
Proof.
  assert (H : summarize_case_query_data Samples.with_null_name
              = Ok Samples.null_name_summary) by (vm_compute; reflexivity).
  destruct (frequency_sum_is_named_count dedup Samples.with_null_name
              Samples.null_name_summary H) as (E & _ & L & _).
  split; [exact E | exact L].
Defined.

(** C1 as stated fails: five records, two of them without a decodable
    payload, and the frequencies add up to three. *)
Lemma frequency_sum_total_record_count_counterexample :
  exists df,
    summarize_case_query_data Samples.combined_df = Ok df
    /\ List.length Samples.combined_df = 5
    /\ sum (map frequency_of_execution (osquery_query_summary_list dedup df))
       = 3
    /\ sum (map frequency_of_execution (osquery_query_summary_list dedup df))
       <> List.length Samples.combined_df.
Proof.
  exists Samples.summary.
  split; [vm_compute; reflexivity|].
  split; [reflexivity|].
  split; [vm_compute; reflexivity|].
  vm_compute. discriminate.
Qed.

(** C2, as the code has it.  For a row whose payload fails to decode, the
    column extractors return their sentinels, the row appends nothing to
    the query summary and so never reaches the extractor, and the summary is
    the one the dataset without the row would give. *)
Theorem malformed_row_is_skipped
    (cases : option (list string)) (customer region : string)
    (created : option string) (pre post : list raw_record) :
  let row := RawRecord Malformed cases customer region created in
  extract_name (Query row) = Ok (NameStr "Unnamed")
  /\ extract_command (Query row)
     = Ok (dquote ++ "SQL statement not available" ++ dquote)%string
  /\ extract_principal_type (Query row) = Ok (PyStr "Type not available")
  /\ extract_query_id (Query row) = Ok (PyStr "ID not available")
  /\ extract_query_type (Query row) = Ok (PyStr "Type not available")
  /\ extract_query_categories (Query row) = Ok "Categories not available"
  /\ row_facts row = Ok []
  /\ query_summary_data (pre ++ row :: post) = query_summary_data (pre ++ post)
  /\ summarize_case_query_data (pre ++ row :: post)
     = summarize_case_query_data (pre ++ post).
Proof.
  intros row. repeat (split; [reflexivity|]).
  assert (E : query_summary_data (pre ++ row :: post)
              = query_summary_data (pre ++ post))
    by (apply query_summary_data_skip; reflexivity).
  split; [exact E|].
  unfold summarize_case_query_data. now rewrite E.
Qed.

(** C2 as stated fails: the malformed row is not kept with empty facts, and
    the summary has one row where the dataset has two. *)
Lemma malformed_row_parity_counterexample :
  exists df,
    summarize_case_query_data Samples.with_malformed = Ok df
    /\ Query (nth 1 Samples.with_malformed (Samples.row Null)) = Malformed
    /\ List.length Samples.with_malformed = 2
    /\ List.length df = 1
    /\ List.length df <> List.length Samples.with_malformed
    /\ map query_name df = [NameStr "Q1"].
Proof.
  eexists. split; [vm_compute; reflexivity|].
  repeat split. simpl. discriminate.
Qed.

(* ================================================================== *)
(** ** The classifier *)
(* ================================================================== *)

Section ClassifierFacts.

Lemma bucket_eqb_eq a b : bucket_eqb a b = true <-> a = b.
Proof. destruct a, b; simpl; split; congruence. Qed.

Lemma append_to_bucket g s b :
  bucket_of (append_to g s) b
  = bucket_of g b ++ (if bucket_eqb (classify s) b then [s] else []).
Proof.
  unfold append_to.
  destruct (classify s), b; simpl; now rewrite ?app_nil_r.
Qed.

(** The loop fills each bucket with the tokens of its class, in order. *)
Lemma fold_bucket l : forall g b,
  bucket_of (fold_left append_to l g) b
  = bucket_of g b ++ filter (fun s => bucket_eqb (classify s) b) l.
Proof.
  induction l as [|s l IH]; intros g b; simpl.
  - now rewrite app_nil_r.
  - rewrite IH, append_to_bucket, <- app_assoc.
    destruct (bucket_eqb (classify s) b); reflexivity.
Qed.

Lemma sorted_bucket l b :
  bucket_of (__sort_attributes_by_characters l) b
  = filter (fun s => bucket_eqb (classify s) b) l.
Proof.
  unfold __sort_attributes_by_characters. rewrite fold_bucket.
  destruct b; reflexivity.
Qed.

Lemma in_bucket l b s :
  In s (bucket_of (__sort_attributes_by_characters l) b)
  <-> In s l /\ classify s = b.
Proof. now rewrite sorted_bucket, filter_In, bucket_eqb_eq. Qed.

Lemma count_occ_bucket l x :
  count_occ string_dec
    (filter (fun s => bucket_eqb (classify s) alphabetical_attributes) l) x
  + count_occ string_dec
      (filter (fun s => bucket_eqb (classify s) alphabetical_and_non_numeric) l) x
  + count_occ string_dec
      (filter (fun s => bucket_eqb (classify s) non_alphabetic) l) x
  + count_occ string_dec
      (filter (fun s => bucket_eqb (classify s) not_sorted) l) x
  = count_occ string_dec l x.
Proof.
  induction l as [|s l IH]; simpl; [reflexivity|].
  destruct (classify s); simpl; destruct (string_dec s x); lia.
Qed.

End ClassifierFacts.

Example classify_samples :
  map classify ["pid"; "user_sid"; "it's"; "COUNT(pid)"; "1=1"; "a b"]
  = [ alphabetical_attributes; alphabetical_attributes;
      alphabetical_attributes; alphabetical_and_non_numeric;
      non_alphabetic; alphabetical_and_non_numeric ].
Proof. vm_compute. reflexivity. Qed.

(** [^C+$] accepts every non-empty string made of characters of [C]. *)
Lemma whole_accepts cls s :
  s <> EmptyString -> all_chars cls s = true ->
  is_some (Re.match_ (whole cls) s) = true.
Proof.
  intros Hne Hall.
  assert (G : forall k : Re.cont,
              (forall pv cp, is_some (k (Re.MState pv EmptyString cp)) = true) ->
              forall t pv cp, all_chars cls t = true ->
              is_some (Re.star_greedy cls k pv cp t) = true).
  { intros k Hk. induction t as [|c t IH]; intros pv cp Ht; simpl in *.
    - apply Hk.
    - apply andb_true_iff in Ht. destruct Ht as [Hc Ht]. rewrite Hc.
      specialize (IH (Some c) cp Ht).
      destruct (Re.star_greedy cls k (Some c) cp t);
        [reflexivity | discriminate]. }
  destruct s as [|c t]; [congruence|].
  simpl in Hall. apply andb_true_iff in Hall. destruct Hall as [Hc Ht].
  unfold Re.match_, Re.match_at, whole.
  cbn [Re.run Re.prev Re.rest Re.cap]. rewrite Hc.
  apply G; [|assumption]. intros pv cp. reflexivity.
Qed.

Lemma digit_or_underscore_not_letter c :
  is_digit c || is_underscore c = true -> is_letter c = false.
Proof.
  destruct c as [[] [] [] [] [] [] [] []]; vm_compute; congruence.
Qed.

Lemma no_letter_found s pv :
  all_chars (fun c => is_digit c || is_underscore c) s = true ->
  Re.search_from (Re.Chr is_letter) pv s = None.
Proof.
  revert pv. induction s as [|c t IH]; intros pv H; simpl in *.
  - reflexivity.
  - apply andb_true_iff in H. destruct H as [Hc Ht].
    unfold Re.match_at. simpl.
    rewrite (digit_or_underscore_not_letter c Hc). now apply IH.
Qed.

(** Every non-empty token of digits and underscores has no letter and is
    filed under [alphabetical_attributes]. *)
Lemma digits_are_group_one s :
  s <> EmptyString ->
  all_chars (fun c => is_digit c || is_underscore c) s = true ->
  has_letter s = false /\ classify s = alphabetical_attributes.
Proof.
  intros Hne Hall. split.
  - unfold has_letter, Re.search. now rewrite no_letter_found.
  - unfold classify, matches_group_one, group_one_patterns.
    assert (W : is_some
                  (Re.match_
                     (whole (fun c => is_letter c || is_digit c || is_underscore c))
                     s) = true).
    { apply whole_accepts; [assumption|].
      clear Hne. induction s as [|c t IH]; simpl in *; [reflexivity|].
      apply andb_true_iff in Hall. destruct Hall as [Hc Ht].
      rewrite IH by assumption. rewrite <- orb_assoc, Hc.
      now rewrite orb_true_r. }
    cbn [existsb]. rewrite W. now rewrite !orb_true_r.
Qed.

(** Where a token without a letter goes: to the first bucket when the
    first test accepts it, else to the third. *)
Lemma classify_letterless s :
  has_letter s = false ->
  classify s
  = if matches_group_one s then alphabetical_attributes else non_alphabetic.
Proof. intros H. unfold classify. now rewrite H. Qed.

(** C7.  Tokens without a letter that the first test accepts: digits,
    apostrophes and underscores alone match its character classes, so they
    are filed under [alphabetical_attributes]; only a letterless token with
    some other character reaches [non_alphabetic]. *)
Theorem letterless_tokens_in_group_one :
  map has_letter ["$$"; "'"; "123"; "1_2"; "_"]
  = [false; false; false; false; false]
  /\ __sort_attributes_by_characters ["$$"; "'"; "123"; "1_2"; "_"]
     = {| group_one := ["'"; "123"; "1_2"; "_"];
          group_two := [];
          group_three := ["$$"];
          group_four := [] |}.
Proof. split; vm_compute; reflexivity. Qed.

(** C8.  The four buckets split any list of tokens: together they hold
    every occurrence once, a token is in the bucket of its class and in no
    other, and every token of the list is in some bucket. *)
Theorem buckets_partition_vocabulary (l : list string) :
  let g := __sort_attributes_by_characters l in
  Permutation (group_one g ++ group_two g ++ group_three g ++ group_four g) l
  /\ (forall b1 b2 s,
        In s (bucket_of g b1) -> In s (bucket_of g b2) -> b1 = b2)
  /\ (forall s, In s l <-> exists b, In s (bucket_of g b))
  /\ (forall s, In s l -> In s (bucket_of g (classify s))).
Proof.
  intros g. split; [|split; [|split]].
  - apply (Permutation_count_occ string_dec). intros x.
    change (group_one g) with (bucket_of g alphabetical_attributes).
    change (group_two g) with (bucket_of g alphabetical_and_non_numeric).
    change (group_three g) with (bucket_of g non_alphabetic).
    change (group_four g) with (bucket_of g not_sorted).
    unfold g. rewrite !sorted_bucket, !count_occ_app.
    rewrite <- (count_occ_bucket l x). lia.
  - intros b1 b2 s H1 H2. apply in_bucket in H1, H2.
    destruct H1 as [_ <-], H2 as [_ <-]. reflexivity.
  - intros s. split.
    + intros H. exists (classify s). now apply in_bucket.
    + intros [b H]. now apply in_bucket in H.
  - intros s H. now apply in_bucket.
Qed.

(* ================================================================== *)
(** ** The report *)
(* ================================================================== *)

Example sample_table_section :
  add_osquery_table_analysis_summary false Samples.summary
  = JObj
      [ ("unique_table_list", JArr [JStr "processes"; JStr "users"]);
        ("total_table_query_count",
         JArr [ JObj [("processes", JInt 1); ("users", JInt 1)];
                JObj [("processes", JFloat (RoundPercent2 1 2));
                      ("users", JFloat (RoundPercent2 1 2))] ]);
        ("table_counts_by_queries",
         JObj [ ("processes",
                 JArr [ JObj [("total_queries", JInt 1)];
                        JObj [("query_name", JStr "Q1");
                              ("number_of_times_queried", JInt 1)] ]);
                ("users",
                 JArr [ JObj [("total_queries", JInt 1)];
                        JObj [("query_name", JStr "Q2");
                              ("number_of_times_queried", JInt 1)] ]) ]) ].
Proof. vm_compute. reflexivity. Qed.

(** The document has the same keys whatever the toggles, and the three
    sections that test their toggle are empty objects when it is off. *)
Lemma report_shape
    (list_of_set : list string -> list string)
    (float_ltb : pyfloat -> pyfloat -> bool)
    (df_combined : list raw_record) (df_summarized : list summary_row)
    (stats queries attributes tables : bool) :
  exists body,
    export_views_to_json list_of_set float_ltb df_combined df_summarized
      stats queries attributes tables
    = JObj [("osquery_summary", body)]
    /\ object_keys body
       = [ "os_query_data_analysis_stats"; "os_query_input_query_summary";
           "os_query_table_analysis_summary";
           "os_query_attribute_analysis_summary" ]
    /\ add_osquery_data_stats_summary list_of_set false df_combined = JObj []
    /\ add_osquery_query_analysis_summary list_of_set float_ltb false
         df_summarized = JObj []
    /\ add_osquery_attribute_analysis_summary false df_summarized = JObj [].
Proof. eexists. repeat split. Qed.

(** C5.  With every toggle off the document keeps its keys and three
    sections are empty objects, but the table section is the one the
    enabled run writes, with its three keys: its function never reads the
    toggle. *)
Theorem disabled_table_section_is_filled
    (list_of_set : list string -> list string)
    (float_ltb : pyfloat -> pyfloat -> bool)
    (df_combined : list raw_record) (df_summarized : list summary_row) :
  exists tables,
    export_views_to_json list_of_set float_ltb df_combined df_summarized
      false false false false
    = JObj
        [ ("osquery_summary",
           JObj [ ("os_query_data_analysis_stats", JObj []);
                  ("os_query_input_query_summary", JObj []);
                  ("os_query_table_analysis_summary", tables);
                  ("os_query_attribute_analysis_summary", JObj []) ]) ]
    /\ tables = add_osquery_table_analysis_summary true df_summarized
    /\ tables <> JObj []
    /\ object_keys tables
       = ["unique_table_list"; "total_table_query_count";
          "table_counts_by_queries"].
Proof.
  eexists. split; [reflexivity|]. split; [reflexivity|].
  split; [discriminate | reflexivity].
Qed.

(** C6.  With the statistics enabled, the value under
    [os_query_data_analysis_stats] is an array of one element, the object
    with the seven statistics: the function returns a one-element tuple. *)
Theorem enabled_stats_section_is_array
    (list_of_set : list string -> list string)
    (float_ltb : pyfloat -> pyfloat -> bool)
    (df_combined : list raw_record) (df_summarized : list summary_row)
    (queries attributes tables : bool) :
  exists stats body,
    member "osquery_summary"
      (export_views_to_json list_of_set float_ltb df_combined df_summarized
         true queries attributes tables) = Some body
    /\ member "os_query_data_analysis_stats" body = Some (JArr [JObj stats])
    /\ is_object (JArr [JObj stats]) = false
    /\ keys stats
       = [ "total_number_queries_analyzed"; "number_of_unique_cases";
           "total_number_of_cases_analyzed"; "number_of_unique_customers";
           "total_number_of_customers_analyzed"; "region_list"; "date_range" ]
    /\ dict_get "total_number_queries_analyzed" stats
       = Some (JInt (List.length df_combined)).
Proof.
  unfold export_views_to_json, add_osquery_data_stats_summary.
  cbn [negb member dict_get String.eqb Ascii.eqb Bool.eqb].
  destruct (_case_counts _) as [uc tc]. destruct (_customer_counts _) as [uk tk].
  do 2 eexists. split; [reflexivity|].
  split; [reflexivity|]. repeat split.
Qed.

Example sample_stats_section :
  add_osquery_data_stats_summary dedup true Samples.combined_df
  = JArr
      [ JObj
          [ ("total_number_queries_analyzed", JInt 5);
            ("number_of_unique_cases", JInt 1);
            ("total_number_of_cases_analyzed", JInt 5);
            ("number_of_unique_customers", JInt 1);
            ("total_number_of_customers_analyzed", JInt 5);
            ("region_list", JArr [JStr "us-west"]);
            ("date_range", JArr [JStr "2024-12-27 00:00:00"]) ] ].
Proof. vm_compute. reflexivity. Qed.

(* ================================================================== *)
(** ** What the extractor returns *)
(* ================================================================== *)

Section CaptureFacts.
Import Re.

Lemma length_append (a b : string) :
  String.length (a ++ b) = String.length a + String.length b.
Proof. induction a as [|x a IH]; simpl; [reflexivity | now rewrite IH]. Qed.

Lemma substring_prefix (a b : string) :
  substring 0 (String.length (a ++ b) - String.length b) (a ++ b)%string = a.
Proof.
  rewrite length_append.
  replace (String.length a + String.length b - String.length b)
    with (String.length a) by lia.
  induction a as [|x a IH]; simpl.
  - destruct b; reflexivity.
  - now rewrite IH.
Qed.

(** A greedy run hands over after a stretch of characters of its class. *)
Lemma star_greedy_split p k cp s : forall pv m,
  star_greedy p k pv cp s = Some m ->
  exists pre post pv',
    s = (pre ++ post)%string /\ all_chars p pre = true
    /\ k (MState pv' post cp) = Some m.
Proof.
  induction s as [|c s IH]; intros pv m; simpl.
  - intros H. now exists EmptyString, EmptyString, pv.
  - destruct (p c) eqn:Hc.
    + destruct (star_greedy p k (Some c) cp s) eqn:E.
      * intros [= ->]. destruct (IH _ _ E) as (pre & post & pv' & -> & Hp & Hk).
        exists (String c pre), post, pv'. simpl. now rewrite Hc, Hp.
      * intros H. now exists EmptyString, (String c s), pv.
    + intros H. now exists EmptyString, (String c s), pv.
Qed.

(** The group [(C+)] captures a non-empty stretch of characters of [C]. *)
Lemma plus_group_capture p st m :
  run (Group (PlusGreedy p)) Some st = Some m ->
  exists w, cap m = Some w /\ w <> EmptyString /\ all_chars p w = true.
Proof.
  cbn [run]. destruct (rest st) as [|c t] eqn:R; [discriminate|].
  destruct (p c) eqn:Hc; [|discriminate]. intros H.
  apply star_greedy_split in H.
  destruct H as (pre & post & pv' & -> & Hp & Hk).
  cbn [rest] in Hk. injection Hk as <-. cbn [cap].
  exists (String c pre). split; [|split].
  - f_equal. apply (substring_prefix (String c pre) post).
  - discriminate.
  - simpl. now rewrite Hc, Hp.
Qed.

Ltac peel_seq H st S :=
  rewrite run_seq in H; apply run_cont in H; destruct H as [st [H S]].

Lemma table_capture pv t m :
  match_at table_pattern pv t = Some m ->
  exists w, cap m = Some w /\ w <> EmptyString /\ all_chars is_word w = true.
Proof.
  unfold match_at, table_pattern. intros H.
  peel_seq H st1 S1. peel_seq H st2 S2.
  now apply plus_group_capture in H.
Qed.

Lemma alias_capture s m :
  search alias_pattern s = Some m ->
  exists w, cap m = Some w /\ w <> EmptyString /\ all_chars is_word w = true.
Proof.
  intros H. apply search_from_found in H. destruct H as [pv [t [_ H]]].
  unfold match_at, alias_pattern in H.
  peel_seq H st1 S1. peel_seq H st2 S2. peel_seq H st3 S3.
  now apply plus_group_capture in H.
Qed.

(** Every string of [findall] is the capture of a match somewhere. *)
Lemma findall_aux_in r g : forall s pv skip,
  In g (findall_aux r pv s skip) ->
  exists pv' t m,
    match_at r pv' t = Some m
    /\ g = match cap m with Some w => w | None => EmptyString end.
Proof.
  induction s as [|c s IH]; intros pv skip; destruct skip; simpl.
  - destruct (match_at r pv "") as [m|] eqn:E; [|contradiction].
    intros [<-|[]]. now exists pv, EmptyString, m.
  - contradiction.
  - destruct (match_at r pv (String c s)) as [m|] eqn:E.
    + intros [<-|H]; [now exists pv, (String c s), m | now apply IH in H].
    + apply IH.
  - apply IH.
Qed.

Lemma mapM_concat_in {A B} (f : A -> result (list B)) l : forall ys b,
  mapM f l = Ok ys -> In b (List.concat ys) ->
  exists x y, In x l /\ f x = Ok y /\ In b y.
Proof.
  induction l as [|x l IH]; intros ys b; simpl.
  - intros [= <-] [].
  - destruct (f x) as [y|e] eqn:E; [|discriminate]. simpl.
    destruct (mapM f l) as [ys'|e]; [|discriminate]. simpl.
    intros [= <-] H. simpl in H. apply in_app_or in H. destruct H as [H|H].
    + exists x, y. auto.
    + destruct (IH _ _ eq_refl H) as (x' & y' & Hx & Hy & Hb).
      exists x', y'. auto.
Qed.

Lemma mapM_concat_length {A B} (f : A -> result (list B)) (g : A -> nat) l :
  (forall x y, f x = Ok y -> List.length y <= g x) ->
  forall ys, mapM f l = Ok ys -> List.length (List.concat ys) <= sum (map g l).
Proof.
  intros Hf. induction l as [|x l IH]; intros ys; simpl.
  - intros [= <-]. simpl. lia.
  - destruct (f x) as [y|e] eqn:E; [|discriminate]. simpl.
    destruct (mapM f l) as [ys'|e]; [|discriminate]. simpl.
    intros [= <-]. simpl. rewrite length_app.
    specialize (Hf _ _ E). specialize (IH _ eq_refl). lia.
Qed.

Lemma contains_char_append c a b :
  contains_char c (a ++ b) = contains_char c a || contains_char c b.
Proof.
  induction a as [|x a IH]; simpl; [reflexivity|].
  now rewrite IH, orb_assoc.
Qed.

Lemma lstrip_chars c s :
  contains_char c (lstrip s) = true -> contains_char c s = true.
Proof.
  induction s as [|x s IH]; simpl; [discriminate|].
  destruct (is_space x); simpl; [|trivial].
  intros H. rewrite (IH H). apply orb_true_r.
Qed.

Lemma rstrip_chars c s :
  contains_char c (rstrip s) = true -> contains_char c s = true.
Proof.
  induction s as [|x s IH]; simpl; [discriminate|].
  destruct (rstrip s) as [|y t] eqn:E.
  - destruct (is_space x); simpl; [discriminate|].
    rewrite orb_false_r. intros ->. reflexivity.
  - simpl in *. intros H. apply orb_true_iff in H. destruct H as [->|H].
    + reflexivity.
    + rewrite (IH H). apply orb_true_r.
Qed.

Lemma strip_chars c s :
  contains_char c (strip s) = true -> contains_char c s = true.
Proof. intros H. now apply lstrip_chars, rstrip_chars. Qed.

(** The pieces of a split hold no separator and only characters of the
    string. *)
Lemma split_pieces d s : forall p,
  In p (split d s) ->
  contains_char d p = false
  /\ forall c, contains_char c p = true -> contains_char c s = true.
Proof.
  induction s as [|x s IH]; intros p; simpl.
  - intros [<-|[]]. split; [reflexivity | trivial].
  - destruct (Ascii.eqb d x) eqn:E.
    + intros [<-|H].
      * split; [reflexivity | discriminate].
      * destruct (IH _ H) as [H1 H2]. split; [assumption|].
        intros c Hc. rewrite (H2 c Hc). apply orb_true_r.
    + pose proof (split_nonempty d s) as Hne.
      destruct (split d s) as [|q qs]; [congruence|].
      intros [<-|H].
      * destruct (IH q (or_introl eq_refl)) as [H1 H2]. split.
        -- simpl. now rewrite E, H1.
        -- intros c. simpl. intros Hc. apply orb_true_iff in Hc.
           destruct Hc as [->|Hc]; [reflexivity|].
           rewrite (H2 c Hc). apply orb_true_r.
      * destruct (IH p (or_intror H)) as [H1 H2]. split; [assumption|].
        intros c Hc. rewrite (H2 c Hc). apply orb_true_r.
Qed.

Lemma all_chars_contains p c w :
  all_chars p w = true -> p c = false -> contains_char c w = false.
Proof.
  intros Hw Hc. induction w as [|x w IH]; simpl in *; [reflexivity|].
  apply andb_true_iff in Hw. destruct Hw as [Hx Hw].
  rewrite (IH Hw), orb_false_r.
  destruct (Ascii.eqb_spec c x) as [->|]; [congruence | reflexivity].
Qed.

(** What a clause can append: nothing or one string, which holds a comma
    only if the clause does and an asterisk only as the wildcard marker. *)
Lemma clause_attributes_shape item l :
  clause_attributes item = Ok l ->
  List.length l <= 1
  /\ forall a, In a l ->
       (contains_char "," a = true -> contains_char "," item = true)
       /\ (contains_char "*" a = true -> a = wildcard_marker).
Proof.
  unfold clause_attributes.
  destruct (contains_char "*" (strip item)) eqn:Hstar.
  { intros [= <-]. split; [simpl; lia|].
    intros a [<-|[]]. split; [discriminate | reflexivity]. }
  destruct (is_some (search as_pattern (strip item))).
  { destruct (search alias_pattern (strip item)) as [m|] eqn:E.
    - destruct (alias_capture _ _ E) as (w & Hc & _ & Hw).
      unfold group1. rewrite Hc. simpl. intros [= <-].
      split; [simpl; lia|]. intros a [<-|[]].
      rewrite (all_chars_contains is_word "," w Hw eq_refl).
      rewrite (all_chars_contains is_word "*" w Hw eq_refl).
      split; discriminate.
    - intros [= <-]. split; [simpl; lia | intros a []]. }
  destruct (contains_char "." (strip item)) eqn:Hdot.
  { unfold index.
    destruct (nth_error (split "." (strip item)) 1) as [part|] eqn:N;
      [|discriminate].
    simpl. intros [= <-]. split; [simpl; lia|]. intros a [<-|[]].
    apply nth_error_In in N.
    destruct (split_pieces _ _ _ N) as [_ Hsub]. split.
    - intros H. now apply strip_chars, Hsub.
    - intros H. apply Hsub in H. congruence. }
  destruct (negb _); intros [= <-]; (split; [simpl; lia|]).
  - intros a [<-|[]]. split.
    + apply strip_chars.
    + congruence.
  - intros a [].
Qed.

End CaptureFacts.

(** X1.  Every table name the extractor returns is a non-empty run of word
    characters. *)
Theorem tables_are_word_tokens
    (sql : string) (tables attributes descriptions : list string) (t : string) :
  extract_sql_details sql = Ok (tables, attributes, descriptions) ->
  In t tables ->
  t <> EmptyString /\ all_chars is_word t = true.
Proof.
  intros H Ht.
  destruct (extract_sql_details_ok sql) as [a [_ E]].
  rewrite E in H. injection H as <- _ _.
  apply findall_aux_in in Ht. destruct Ht as (pv & u & m & Hm & ->).
  destruct (table_capture _ _ _ Hm) as (w & -> & Hne & Hw). auto.
Qed.

Lemma tables_are_word_tokens_witness :
  "sophos_web_flow_journal" <> EmptyString
  /\ all_chars is_word "sophos_web_flow_journal" = true.
Proof.
  apply (tables_are_word_tokens
           "SELECT a FROM sophos_web_flow_journal AS swfj"
           ["sophos_web_flow_journal"] ["a"] []).
  - vm_compute. reflexivity.
  - simpl. tauto.
Defined.

(** X2.  No attribute the extractor returns holds a comma, and the only
    attribute that holds an asterisk is the wildcard marker. *)
Theorem attributes_hold_no_comma
    (sql : string) (attributes : list string) (a : string) :
  extract_attribute_names sql = Ok attributes ->
  In a attributes ->
  contains_char "," a = false
  /\ (contains_char "*" a = true -> a = wildcard_marker).
Proof.
  unfold extract_attribute_names. intros H Ha.
  destruct (mapM segment_attributes (Re.findall select_pattern sql))
    as [parts|e] eqn:E; [|discriminate].
  simpl in H. injection H as <-.
  destruct (mapM_concat_in _ _ _ _ E Ha) as (segment & l & _ & Hl & Hal).
  unfold segment_attributes in Hl.
  destruct (mapM clause_attributes (split "," segment)) as [ps|e] eqn:E2;
    [|discriminate].
  simpl in Hl. injection Hl as <-.
  destruct (mapM_concat_in _ _ _ _ E2 Hal) as (item & l' & Hi & Hl' & Hal').
  destruct (clause_attributes_shape _ _ Hl') as [_ Hshape].
  destruct (Hshape a Hal') as [Hcomma Hstar].
  destruct (split_pieces _ _ _ Hi) as [Hno _].
  split; [|assumption].
  destruct (contains_char "," a); [|reflexivity].
  rewrite Hcomma in Hno by reflexivity. discriminate.
Qed.

Lemma attributes_hold_no_comma_witness :
  contains_char "," wildcard_marker = false
  /\ (contains_char "*" wildcard_marker = true
      -> wildcard_marker = wildcard_marker).
Proof.
  apply (attributes_hold_no_comma
           "SELECT pid, COUNT(*) FROM processes"
           ["pid"; wildcard_marker] wildcard_marker).
  - vm_compute. reflexivity.
  - simpl. tauto.
Defined.

(** X3.  The extractor returns at most one attribute for each
    comma-separated clause of the SELECT spans it finds. *)
Theorem one_attribute_per_clause (sql : string) (attributes : list string) :
  extract_attribute_names sql = Ok attributes ->
  List.length attributes
  <= sum (map (fun segment => List.length (split "," segment))
              (Re.findall select_pattern sql)).
Proof.
  unfold extract_attribute_names. intros H.
  destruct (mapM segment_attributes (Re.findall select_pattern sql))
    as [parts|e] eqn:E; [|discriminate].
  simpl in H. injection H as <-.
  apply (mapM_concat_length segment_attributes); [|assumption].
  intros segment l Hl. unfold segment_attributes in Hl.
  destruct (mapM clause_attributes (split "," segment)) as [ps|e] eqn:E2;
    [|discriminate].
  simpl in Hl. injection Hl as <-.
  assert (L : forall l : list string,
              sum (map (fun _ : string => 1) l) = List.length l).
  { induction l as [|x l IH]; simpl; [reflexivity | now rewrite IH]. }
  rewrite <- (L (split "," segment)).
  apply (mapM_concat_length clause_attributes); [|assumption].
  intros item l Hl. apply clause_attributes_shape in Hl. tauto.
Qed.

Lemma one_attribute_per_clause_witness :
  List.length ["a"; "bb"]
  <= sum (map (fun segment => List.length (split "," segment))
              (Re.findall select_pattern
                 "SELECT a, b AS bb, STRFTIME(x) FROM t")).
Proof.
  apply (one_attribute_per_clause "SELECT a, b AS bb, STRFTIME(x) FROM t").
  vm_compute. reflexivity.
Defined.

(* ================================================================== *)
(** ** More on the query summary *)
(* ================================================================== *)

Section SummaryMore.

Lemma filter_filter {A} (f : A -> bool) l : filter f (filter f l) = filter f l.
Proof.
  induction l as [|x l IH]; simpl; [reflexivity|].
  destruct (f x) eqn:E; simpl; [rewrite E|]; now rewrite IH.
Qed.

Lemma filter_none {A} (f g : A -> bool) l :
  (forall x, f x = true -> g x = false) -> filter g (filter f l) = [].
Proof.
  intros H. induction l as [|x l IH]; simpl; [reflexivity|].
  destruct (f x) eqn:E; simpl; [rewrite (H x E)|]; exact IH.
Qed.

End SummaryMore.


Example summarize_empty_dataset :
  summarize_case_query_data [] = Raise (KeyError "os_query_table")
  /\ summarize_case_query_data [Samples.row Malformed; Samples.row Null]
     = Raise (KeyError "os_query_table").
Proof. split; reflexivity. Qed.

Example summarize_raising_rows :
  summarize_case_query_data
    [ Samples.row (Samples.payload "Q1" "SELECT pid FROM processes");
      Samples.row NotObject; Samples.row NotText ]
  = Raise AttributeError
  /\ summarize_case_query_data [Samples.row NotText; Samples.row NotObject]
     = Raise TypeError
  /\ summarize_case_query_data
       [ Samples.row (Decoded (QueryJson (Some PyNone) None None None None
                                         None)) ]
     = Raise TypeError.
Proof. repeat split; reflexivity. Qed.

(** X5.  The [query_name] column of the summary is the [extracted_name]
    column of the combined frame, restricted to the records that decode:
    the two code paths name a record alike, [Unnamed] and [None]
    included. *)
Theorem summary_names_are_extracted_names
    (combined_df : list raw_record) (df : list summary_row) :
  summarize_case_query_data combined_df = Ok df ->
  map (fun r => Ok (query_name r)) df
  = map (fun row => extract_name (Query row)) (filter decodable combined_df).
Proof.
  intros H. now apply summarize_names.
Qed.

Lemma summary_names_are_extracted_names_witness :
  map (fun r => Ok (query_name r)) Samples.summary
  = [Ok (NameStr "Q1"); Ok (NameStr "Q1"); Ok (NameStr "Q2")].
Proof.
  rewrite (summary_names_are_extracted_names Samples.combined_df).
  - reflexivity.
  - vm_compute. reflexivity.
Defined.

(** X6.  Cleaning a cleaned list again removes nothing: the filtered list
    of either removal function is returned unchanged, with an empty list of
    removed items. *)
Theorem quarantine_is_idempotent (lst elements : list string) :
  __remove_invalid_elements_and_track
    (fst (__remove_invalid_elements_and_track lst elements)) elements
  = (fst (__remove_invalid_elements_and_track lst elements), [])
  /\ __remove_invalid_elements_fuzzy_match_and_track
       (fst (__remove_invalid_elements_fuzzy_match_and_track lst elements))
       elements
     = (fst (__remove_invalid_elements_fuzzy_match_and_track lst elements), []).
Proof.
  unfold __remove_invalid_elements_and_track,
    __remove_invalid_elements_fuzzy_match_and_track.
  cbn [fst]. split; f_equal.
  - apply filter_filter.
  - apply filter_none. intros x H. now apply negb_true_iff in H.
  - apply filter_filter.
  - apply filter_none. intros x H. now apply negb_true_iff in H.
Qed.

(* ================================================================== *)
(** ** Ascending lists *)
(* ================================================================== *)

Section OrderFacts.

Lemma ascii_compare_refl a : Ascii.compare a a = Eq.
Proof. unfold Ascii.compare. apply N.compare_refl. Qed.

Lemma ascii_compare_lt_trans a b c :
  Ascii.compare a b = Lt -> Ascii.compare b c = Lt -> Ascii.compare a c = Lt.
Proof.
  unfold Ascii.compare. rewrite !N.compare_lt_iff. apply N.lt_trans.
Qed.

Lemma compare_lt_trans : forall a b c,
  String.compare a b = Lt -> String.compare b c = Lt -> String.compare a c = Lt.
Proof.
  induction a as [|x a IH]; intros [|y b] [|z c]; simpl; try congruence.
  destruct (Ascii.compare x y) eqn:Exy; try discriminate;
    destruct (Ascii.compare y z) eqn:Eyz; try discriminate.
  - apply Ascii.compare_eq_iff in Exy, Eyz. subst.
    rewrite ascii_compare_refl. apply IH.
  - apply Ascii.compare_eq_iff in Exy. subst. now rewrite Eyz.
  - apply Ascii.compare_eq_iff in Eyz. subst. now rewrite Exy.
  - now rewrite (ascii_compare_lt_trans _ _ _ Exy Eyz).
Qed.

Lemma ltb_trans a b c :
  String.ltb a b = true -> String.ltb b c = true -> String.ltb a c = true.
Proof.
  unfold String.ltb.
  destruct (String.compare a b) eqn:E1; try discriminate.
  destruct (String.compare b c) eqn:E2; try discriminate.
  now rewrite (compare_lt_trans _ _ _ E1 E2).
Qed.

Lemma ltb_irrefl a : String.ltb a a = false.
Proof.
  unfold String.ltb. destruct (String.compare a a) eqn:E; try reflexivity.
  pose proof (String.compare_antisym a a) as H. rewrite E in H.
  discriminate.
Qed.

(** Of two different strings one is below the other. *)
Lemma not_leb_ltb a b : String.leb a b = false -> String.ltb b a = true.
Proof.
  unfold String.leb, String.ltb. rewrite (String.compare_antisym b a).
  destruct (String.compare a b); simpl; congruence.
Qed.

Lemma leb_neq_ltb a b : String.leb a b = true -> a <> b -> String.ltb a b = true.
Proof.
  unfold String.leb, String.ltb.
  destruct (String.compare a b) eqn:E; try congruence.
  apply String.compare_eq_iff in E. congruence.
Qed.

Lemma ascending_nodup l : ascending l -> NoDup l.
Proof.
  induction 1 as [|x l Hs IH Hx]; constructor; [|assumption].
  intros Hin. rewrite Forall_forall in Hx. specialize (Hx x Hin).
  now rewrite ltb_irrefl in Hx.
Qed.

Lemma insert_sorted_ascending x l :
  ascending l -> ~ In x l -> ascending (insert_sorted x l).
Proof.
  unfold ascending. induction 1 as [|y l Hs IH Hy]; intros Hx; simpl.
  - repeat constructor.
  - destruct (String.leb x y) eqn:E.
    + assert (Hxy : String.ltb x y = true).
      { apply leb_neq_ltb; [assumption|]. intros ->. apply Hx. now left. }
      constructor; [now constructor|]. constructor; [assumption|].
      rewrite Forall_forall in *. intros z Hz.
      eapply ltb_trans; [exact Hxy | now apply Hy].
    + constructor.
      * apply IH. intros H. apply Hx. now right.
      * rewrite Forall_forall in *. intros z Hz.
        apply (Permutation_in _ (insert_sorted_perm x l)) in Hz.
        destruct Hz as [<-|Hz]; [now apply not_leb_ltb | now apply Hy].
Qed.

Lemma sorted_ascending l : NoDup l -> ascending (sorted l).
Proof.
  induction 1 as [|x l Hx Hnd IH]; simpl; [constructor|].
  apply insert_sorted_ascending; [assumption|].
  intros H. apply Hx. revert H. apply Permutation_in, sorted_perm.
Qed.

(** [sorted(set(l))] is strictly ascending. *)
Lemma sorted_set_ascending l : ascending (sorted_set l).
Proof. apply sorted_ascending, dedup_nodup. Qed.

Lemma filter_ascending f l : ascending l -> ascending (filter f l).
Proof.
  unfold ascending. induction 1 as [|x l Hs IH Hx]; simpl; [constructor|].
  destruct (f x); [|assumption]. constructor; [assumption|].
  rewrite Forall_forall in *. intros z Hz. apply filter_In in Hz. now apply Hx.
Qed.

End OrderFacts.

(* ================================================================== *)
(** ** Groups and the lists of the report *)
(* ================================================================== *)

Section ReportLists.

Lemma pyname_eqb_eq a b : pyname_eqb a b = true <-> a = b.
Proof.
  destruct a as [s|], b as [t|]; simpl; try (split; congruence).
  rewrite String.eqb_eq. split; congruence.
Qed.

Lemma dropna_in q names : In q (dropna names) <-> In (NameStr q) names.
Proof.
  induction names as [|[s|] names IH]; simpl; [tauto | |].
  - rewrite IH. split; intros [H|H]; auto; left; congruence.
  - rewrite IH. split; [auto | intros [H|H]; [discriminate | assumption]].
Qed.

Lemma group_keys_in df q :
  In q (group_keys df) <-> exists r, In r df /\ query_name r = NameStr q.
Proof.
  unfold group_keys. rewrite sorted_set_in, dropna_in, in_map_iff.
  split; intros [r [H1 H2]]; exists r; auto.
Qed.

Lemma rows_named_in q df r :
  In r (rows_named q df) <-> In r df /\ query_name r = q.
Proof.
  unfold rows_named. rewrite filter_In, pyname_eqb_eq. tauto.
Qed.

Lemma members_in q df r :
  In r (members q df) <-> In r df /\ query_name r = NameStr q.
Proof. apply rows_named_in. Qed.

(** The flattened lists of the groups hold the deduplicated tables of every
    row that has a key. *)
Lemma flattened_tables_in df t :
  In t (List.concat (map flattened_table_list (_query_table_data df)))
  <-> exists r q, In r df /\ query_name r = NameStr q
                  /\ In t (unique_osquery_table r).
Proof.
  unfold _query_table_data. rewrite map_map. cbn [flattened_table_list].
  unfold _flatten. rewrite in_concat. split.
  - intros [l [Hl Ht]]. apply in_map_iff in Hl. destruct Hl as [q [<- _]].
    apply in_concat in Ht. destruct Ht as [l' [Hl' Ht]].
    apply in_map_iff in Hl'. destruct Hl' as [r [<- Hr]].
    apply members_in in Hr. exists r, q. tauto.
  - intros [r [q [Hr [Hq Ht]]]].
    exists (List.concat (map unique_osquery_table (members q df))).
    split.
    + apply in_map_iff. exists q. split; [reflexivity|].
      apply group_keys_in. now exists r.
    + apply in_concat. exists (unique_osquery_table r). split; [|assumption].
      apply in_map, members_in. auto.
Qed.

Lemma unique_table_list_in df t :
  In t (_create_unique_table_list (_query_table_data df))
  <-> exists r q, In r df /\ query_name r = NameStr q
                  /\ In t (unique_osquery_table r).
Proof.
  unfold _create_unique_table_list. rewrite sorted_set_in.
  apply flattened_tables_in.
Qed.

Lemma unique_attribute_list_in df a :
  In a (__create_unique_attribute_list df)
  <-> exists r, In r df /\ In a (unique_osquery_attributes r).
Proof.
  unfold __create_unique_attribute_list. rewrite sorted_set_in, in_concat.
  split.
  - intros [l [Hl Ha]]. apply in_map_iff in Hl. destruct Hl as [r [<- Hr]].
    now exists r.
  - intros [r [Hr Ha]]. exists (unique_osquery_attributes r).
    split; [now apply in_map | assumption].
Qed.

Lemma members_length_le q df :
  List.length (members q df) <= List.length (dropna (map query_name df)).
Proof.
  unfold members, rows_named. induction df as [|r df IH]; simpl; [lia|].
  destruct (query_name r) as [s|]; simpl; [|exact IH].
  destruct (String.eqb s q); simpl; lia.
Qed.

Lemma summary_names los df :
  map qs_query_name (osquery_query_summary_list los df) = group_keys df.
Proof.
  unfold osquery_query_summary_list, _query_table_data.
  rewrite !map_map. apply map_id.
Qed.

End ReportLists.

(** X7.  In every row of the summary the deduplicated table column is
    strictly ascending and names exactly the tables of the cleaned table
    column; the same holds for the two attribute columns. *)
Theorem unique_columns_sorted_and_complete
    (combined_df : list raw_record) (df : list summary_row) (r : summary_row) :
  summarize_case_query_data combined_df = Ok df ->
  In r df ->
  ascending (unique_osquery_table r)
  /\ (forall t, In t (unique_osquery_table r) <-> In t (os_query_table r))
  /\ ascending (unique_osquery_attributes r)
  /\ (forall a,
        In a (unique_osquery_attributes r) <-> In a (query_attributes r)).
Proof.
  intros H Hr. apply summarize_inv in H. destruct H as [data [_ [-> [_ Hu]]]].
  apply in_map_iff in Hr. destruct Hr as [r0 [<- Hr0]].
  destruct (Hu r0 Hr0) as [Ut Ua].
  unfold quarantine_row, __remove_invalid_elements_and_track,
    __remove_invalid_elements_fuzzy_match_and_track.
  cbn [unique_osquery_table os_query_table unique_osquery_attributes
       query_attributes fst snd].
  rewrite Ut, Ua.
  split; [|split; [|split]].
  - apply filter_ascending, sorted_set_ascending.
  - intros t. rewrite !filter_In, sorted_set_in. tauto.
  - apply filter_ascending, sorted_set_ascending.
  - intros a. rewrite !filter_In, sorted_set_in. tauto.
Qed.

Lemma unique_columns_sorted_and_complete_witness : ascending ["b"; "name"].
Proof.
  assert (H : summarize_case_query_data Samples.combined_df
              = Ok Samples.summary) by (vm_compute; reflexivity).
  assert (Hin : In (SummaryRow (NameStr "Q1") [] [] ["b"; "name"] ["b"; "name"]
                      ["JSON_EACH"] ["GROUP_CONCAT(k)"]) Samples.summary)
    by (vm_compute; left; reflexivity).
  destruct (unique_columns_sorted_and_complete _ _ _ H Hin) as (_ & _ & A & _).
  exact A.
Defined.

(** X8.  The query list has one entry for each distinct query name that
    is not [None], in strictly ascending order of the names; the rows whose
    name is [None] have no entry.  An entry's frequency is the number of
    summary rows with its name, at least 1 and at most the total the
    percentages divide by; that total is the number of rows whose name is
    not [None], and is therefore never zero where a percentage is
    computed. *)
Theorem one_summary_per_query_name
    (list_of_set : list string -> list string) (df : list summary_row) :
  let queries := osquery_query_summary_list list_of_set df in
  ascending (map qs_query_name queries)
  /\ (forall q, In q (map qs_query_name queries)
                <-> exists r, In r df /\ query_name r = NameStr q)
  /\ Forall (fun s =>
               frequency_of_execution s
               = List.length (members (qs_query_name s) df)
               /\ 1 <= frequency_of_execution s
               /\ frequency_of_execution s <= counter df)
            queries
  /\ counter df = List.length (dropna (map query_name df))
  /\ counter df <= List.length df
  /\ Forall (fun e =>
               snd e = Round5Times100 (frequency_of_execution (fst e))
                                      (counter df)
               /\ 1 <= counter df)
            (__calculate_query_percentage queries (counter df)).
Proof.
  intros queries. unfold queries.
  assert (F : Forall (fun s =>
               frequency_of_execution s
               = List.length (members (qs_query_name s) df)
               /\ 1 <= frequency_of_execution s
               /\ frequency_of_execution s <= counter df)
            (osquery_query_summary_list list_of_set df)).
  { unfold osquery_query_summary_list, _query_table_data.
    rewrite map_map. apply Forall_forall. intros s Hs.
    apply in_map_iff in Hs. destruct Hs as [q [<- Hq]].
    cbn [summarize_group frequency_of_execution qs_query_name g_query_name
         table_list].
    rewrite length_map, counter_sum.
    split; [reflexivity|]. split; [|apply members_length_le].
    apply group_keys_in in Hq. destruct Hq as [r [Hr Hn]].
    assert (Hm : In r (members q df)) by (apply members_in; auto).
    destruct (members q df); [contradiction | simpl; lia]. }
  rewrite summary_names.
  split; [apply sorted_set_ascending|].
  split; [apply group_keys_in|].
  split; [exact F|].
  split; [apply counter_sum|].
  split.
  { rewrite counter_sum.
    rewrite <- (length_map query_name df). apply dropna_length_le. }
  unfold __calculate_query_percentage. rewrite Forall_map.
  revert F. apply Forall_impl.
  intros s (_ & H1 & H2). cbn [fst snd].
  split; [reflexivity | lia].
Qed.

Example null_name_has_no_entry :
  map qs_query_name (osquery_query_summary_list dedup Samples.null_name_summary)
  = ["Q1"]
  /\ map query_name Samples.null_name_summary = [NameNone; NameStr "Q1"]
  /\ counter Samples.null_name_summary = 1.
Proof. repeat split; vm_compute; reflexivity. Qed.

(** Two records decode, one group is reported, at the full share; the
    table counts keep the row without a name, under [null]. *)
Example null_name_report :
  member "queries_by_percentage"
         (add_osquery_query_analysis_summary
            dedup (fun _ _ => false) true Samples.null_name_summary)
  = Some (JObj [("Q1", JFloat (Round5Times100 1 1))])
  /\ member "table_counts_by_queries"
            (add_osquery_table_analysis_summary
               false Samples.null_name_summary)
     = Some (JObj
               [ ("users",
                  JArr [ JObj [("total_queries", JInt 1)];
                         JObj [ ("query_name", JNull);
                                ("number_of_times_queried", JInt 1) ] ]);
                 ("processes",
                  JArr [ JObj [("total_queries", JInt 1)];
                         JObj [ ("query_name", JStr "Q1");
                                ("number_of_times_queried", JInt 1) ] ]) ]).
Proof. split; vm_compute; reflexivity. Qed.

(** X9.  For a summarised dataset, no entry of the query list has an empty
    [parsing_error_sql_content]: it is the single string [None], or the
    tables quarantined for the group, each of them a keyword of the
    denylist. *)
Theorem parsing_errors_are_keywords
    (list_of_set : list string -> list string)
    (combined_df : list raw_record) (df : list summary_row) :
  summarize_case_query_data combined_df = Ok df ->
  Forall (fun s =>
            parsing_error_sql_content s <> []
            /\ (parsing_error_sql_content s = ["None"]
                \/ parsing_error_sql_content s
                   = List.concat (map os_query_table_removed_items
                                      (members (qs_query_name s) df)))
            /\ forall x, In x (parsing_error_sql_content s) ->
                 x = "None" \/ In x sql_keywords_to_log_and_remove)
         (osquery_query_summary_list list_of_set df).
Proof.
  intros H. apply summarize_inv in H. destruct H as [data [_ [-> _]]].
  unfold osquery_query_summary_list, _query_table_data.
  rewrite map_map. apply Forall_forall. intros s Hs.
  apply in_map_iff in Hs. destruct Hs as [q [<- _]].
  cbn [summarize_group parsing_error_sql_content qs_query_name g_query_name
       g_os_query_table_removed_items]. unfold _flatten.
  set (removed := List.concat (map os_query_table_removed_items
                                   (members q (map quarantine_row data)))).
  assert (K : forall x, In x removed -> In x sql_keywords_to_log_and_remove).
  { intros x Hx. unfold removed in Hx. apply in_concat in Hx.
    destruct Hx as [l [Hl Hx]]. apply in_map_iff in Hl.
    destruct Hl as [r [<- Hr]]. apply members_in in Hr. destruct Hr as [Hr _].
    apply in_map_iff in Hr. destruct Hr as [r0 [<- _]].
    cbn in Hx. apply filter_In in Hx. now apply str_in_iff. }
  destruct removed as [|x l] eqn:E; simpl.
  - split; [discriminate|]. split; [now left|].
    intros x [<-|[]]. now left.
  - split; [discriminate|]. split; [now right|].
    intros y Hy. right. now apply K.
Qed.

Lemma parsing_errors_are_keywords_witness :
  map parsing_error_sql_content
      (osquery_query_summary_list dedup Samples.summary)
  = [["JSON_EACH"]; ["None"]]
  /\ Forall (fun s => parsing_error_sql_content s <> [])
            (osquery_query_summary_list dedup Samples.summary).
Proof.
  split; [vm_compute; reflexivity|].
  assert (H : summarize_case_query_data Samples.combined_df
              = Ok Samples.summary) by (vm_compute; reflexivity).
  pose proof (parsing_errors_are_keywords dedup Samples.combined_df
                Samples.summary H) as W.
  revert W. apply Forall_impl. tauto.
Defined.

(** X10.  The lists of names the report prints are strictly ascending, hence
    free of duplicates: the unique table list, the unique attribute list
    and each of the four attribute buckets. *)
Theorem report_lists_are_ascending (df : list summary_row) :
  ascending (_create_unique_table_list (_query_table_data df))
  /\ ascending (__create_unique_attribute_list df)
  /\ forall b,
       ascending
         (bucket_of
            (__sort_attributes_by_characters
               (__create_unique_attribute_list df)) b).
Proof.
  split; [apply sorted_set_ascending|].
  split; [apply sorted_set_ascending|].
  intros b. rewrite sorted_bucket.
  apply filter_ascending, sorted_set_ascending.
Qed.

(** X11.  For a summarised dataset the report lists nothing the quarantine
    should have removed: no table of the unique table list is a keyword of
    the denylist, and no attribute of the unique attribute list or of a
    bucket holds one as a substring. *)
Theorem report_lists_hold_no_keyword
    (combined_df : list raw_record) (df : list summary_row) :
  summarize_case_query_data combined_df = Ok df ->
  (forall t, In t (_create_unique_table_list (_query_table_data df)) ->
             ~ In t sql_keywords_to_log_and_remove)
  /\ (forall a, In a (__create_unique_attribute_list df) ->
        ~ exists k, In k sql_keywords_to_log_and_remove
                    /\ exists pre post, a = (pre ++ k ++ post)%string)
  /\ (forall b a,
        In a (bucket_of
                (__sort_attributes_by_characters
                   (__create_unique_attribute_list df)) b) ->
        ~ exists k, In k sql_keywords_to_log_and_remove
                    /\ exists pre post, a = (pre ++ k ++ post)%string).
Proof.
  intros H. apply summarize_inv in H. destruct H as [data [_ [-> _]]].
  assert (A : forall a,
            In a (__create_unique_attribute_list (map quarantine_row data)) ->
            ~ exists k, In k sql_keywords_to_log_and_remove
                        /\ exists pre post, a = (pre ++ k ++ post)%string).
  { intros a Ha. apply unique_attribute_list_in in Ha.
    destruct Ha as [r [Hr Ha]]. apply in_map_iff in Hr.
    destruct Hr as [r0 [<- _]].
    unfold quarantine_row, __remove_invalid_elements_fuzzy_match_and_track
      in Ha.
    cbn [unique_osquery_attributes fst] in Ha. apply filter_In in Ha.
    destruct Ha as [_ Ha]. apply negb_true_iff in Ha.
    intros C. apply any_found_iff in C. congruence. }
  split; [|split; [exact A|]].
  - intros t Ht. apply unique_table_list_in in Ht.
    destruct Ht as [r [q [Hr [_ Ht]]]]. apply in_map_iff in Hr.
    destruct Hr as [r0 [<- _]].
    unfold quarantine_row, __remove_invalid_elements_and_track in Ht.
    cbn [unique_osquery_table fst] in Ht. apply filter_In in Ht.
    destruct Ht as [_ Ht]. apply negb_true_iff in Ht.
    intros C. apply str_in_iff in C. congruence.
  - intros b a Ha. apply in_bucket in Ha. now apply A.
Qed.

Lemma report_lists_hold_no_keyword_witness :
  _create_unique_table_list (_query_table_data Samples.summary)
  = ["processes"; "users"]
  /\ ~ In "processes" sql_keywords_to_log_and_remove.
Proof.
  split; [vm_compute; reflexivity|].
  assert (H : summarize_case_query_data Samples.combined_df
              = Ok Samples.summary) by (vm_compute; reflexivity).
  apply (report_lists_hold_no_keyword Samples.combined_df Samples.summary H).
  vm_compute. tauto.
Defined.

(* ================================================================== *)
(** ** Dictionaries, counters and descending sorts *)
(* ================================================================== *)

Section DictFacts.
Context {V : Type}.

Lemma dict_get_set_same k (v : V) d : dict_get k (dict_set k v d) = Some v.
Proof.
  induction d as [|[k' v'] d IH]; simpl.
  - now rewrite String.eqb_refl.
  - destruct (String.eqb k k') eqn:E; simpl; rewrite E; [reflexivity | exact IH].
Qed.

Lemma dict_get_set_other k k' (v : V) d :
  k <> k' -> dict_get k' (dict_set k v d) = dict_get k' d.
Proof.
  intros Hne. induction d as [|[k0 v0] d IH]; simpl.
  - destruct (String.eqb_spec k' k); [congruence | reflexivity].
  - destruct (String.eqb_spec k k0) as [->|]; simpl.
    + destruct (String.eqb_spec k' k0); [congruence | reflexivity].
    + now rewrite IH.
Qed.

Lemma dict_get_none k (d : list (string * V)) :
  dict_get k d = None <-> ~ In k (keys d).
Proof.
  induction d as [|[k' v'] d IH]; simpl; [tauto|].
  destruct (String.eqb_spec k k') as [->|Hne].
  - split; [discriminate | intros H; exfalso; apply H; now left].
  - rewrite IH. split; intros H; [intros [E|E]; congruence || auto | tauto].
Qed.

Lemma dict_get_in k (v : V) d : dict_get k d = Some v -> In (k, v) d.
Proof.
  induction d as [|[k' v'] d IH]; simpl; [discriminate|].
  destruct (String.eqb_spec k k') as [->|Hne].
  - intros [= ->]. now left.
  - intros H. right. now apply IH.
Qed.

Lemma in_dict_get k (v : V) d :
  NoDup (keys d) -> In (k, v) d -> dict_get k d = Some v.
Proof.
  induction d as [|[k' v'] d IH]; simpl; [contradiction|].
  intros Hnd [E|Hin].
  - injection E as -> ->. now rewrite String.eqb_refl.
  - inversion Hnd as [|? ? Hk Hd]; subst.
    destruct (String.eqb_spec k k') as [->|Hne].
    + exfalso. apply Hk. unfold keys. now apply (in_map fst) in Hin.
    + now apply IH.
Qed.

(** Setting a key keeps the keys where they are; a new key goes last. *)
Lemma keys_dict_set k (v : V) d :
  keys (dict_set k v d)
  = match dict_get k d with
    | Some _ => keys d
    | None => keys d ++ [k]
    end.
Proof.
  induction d as [|[k' v'] d IH]; simpl; [reflexivity|].
  destruct (String.eqb k k'); simpl; [reflexivity|].
  rewrite IH. now destruct (dict_get k d).
Qed.

Lemma dict_set_nodup k (v : V) d : NoDup (keys d) -> NoDup (keys (dict_set k v d)).
Proof.
  intros H. rewrite keys_dict_set.
  destruct (dict_get k d) eqn:E; [assumption|].
  apply dict_get_none in E.
  apply NoDup_app; [assumption | repeat constructor; intros [] |].
  intros x Hx [<-|[]]. contradiction.
Qed.

Lemma dict_set_in_keys k k' (v : V) d :
  In k' (keys (dict_set k v d)) <-> k' = k \/ In k' (keys d).
Proof.
  rewrite keys_dict_set. destruct (dict_get k d) eqn:E.
  - split; [tauto|]. intros [->|H]; [|assumption].
    apply dict_get_in in E. unfold keys. now apply (in_map fst) in E.
  - rewrite in_app_iff. simpl. split; intros H; intuition (subst; auto).
Qed.

End DictFacts.

Section CounterFacts.

Lemma stored_set_same k v d : stored (dict_set k v d) k = v.
Proof. unfold stored. now rewrite dict_get_set_same. Qed.

Lemma stored_set_other k k' v d :
  k <> k' -> stored (dict_set k v d) k' = stored d k'.
Proof. intros H. unfold stored. now rewrite dict_get_set_other. Qed.

Lemma sum_dict_set k v (d : list (string * nat)) :
  sum (map snd (dict_set k v d)) + stored d k = sum (map snd d) + v.
Proof.
  unfold stored. induction d as [|[k' v'] d IH]; simpl; [lia|].
  destruct (String.eqb k k'); simpl; lia.
Qed.

Lemma stored_zero d k : positive d -> stored d k = 0 <-> ~ In k (keys d).
Proof.
  intros P. rewrite <- dict_get_none. unfold stored.
  destruct (dict_get k d) as [n|] eqn:E.
  - specialize (P _ _ E). split; [lia | discriminate].
  - tauto.
Qed.

Lemma stored_in d k n :
  NoDup (keys d) -> positive d ->
  In (k, n) d <-> stored d k = n /\ 1 <= n.
Proof.
  intros Hnd P. unfold stored. split.
  - intros H. apply in_dict_get in H; [|assumption]. rewrite H.
    split; [reflexivity | now apply (P k)].
  - intros [H Hn]. destruct (dict_get k d) as [m|] eqn:E; [|lia].
    subst. now apply dict_get_in.
Qed.

Lemma incr_stored d k k' :
  stored (incr d k) k' = stored d k' + (if string_dec k k' then 1 else 0).
Proof.
  unfold incr. destruct (string_dec k k') as [<-|Hne].
  - destruct (dict_get k d) eqn:E; rewrite stored_set_same;
      unfold stored; rewrite E; lia.
  - destruct (dict_get k d); rewrite stored_set_other by assumption; lia.
Qed.

Lemma incr_positive d k : positive d -> positive (incr d k).
Proof.
  intros P k' n. unfold incr.
  destruct (string_dec k k') as [<-|Hne].
  - destruct (dict_get k d) eqn:E; rewrite dict_get_set_same;
      intros [= <-]; lia.
  - destruct (dict_get k d); rewrite dict_get_set_other by assumption;
      apply P.
Qed.

Lemma incr_nodup d k : NoDup (keys d) -> NoDup (keys (incr d k)).
Proof. unfold incr. destruct (dict_get k d); apply dict_set_nodup. Qed.

Lemma incr_sum d k : sum (map snd (incr d k)) = S (sum (map snd d)).
Proof.
  unfold incr. destruct (dict_get k d) as [n|] eqn:E.
  - pose proof (sum_dict_set k (S n) d) as H. unfold stored in H.
    rewrite E in H. lia.
  - pose proof (sum_dict_set k 1 d) as H. unfold stored in H.
    rewrite E in H. lia.
Qed.

(** What a counter holds after counting a list on top of [d]. *)
Lemma fold_incr l : forall d,
  NoDup (keys d) -> positive d ->
  let c := fold_left incr l d in
  NoDup (keys c) /\ positive c
  /\ (forall k, stored c k = stored d k + count_occ string_dec l k)
  /\ sum (map snd c) = sum (map snd d) + List.length l.
Proof.
  induction l as [|x l IH]; intros d Hnd P; simpl.
  - repeat split; auto.
  - destruct (IH (incr d x) (incr_nodup _ _ Hnd) (incr_positive _ _ P))
      as (H1 & H2 & H3 & H4).
    repeat split; auto.
    + intros k. rewrite H3, incr_stored.
      destruct (string_dec x k); lia.
    + rewrite H4, incr_sum. lia.
Qed.

Lemma Counter_spec l :
  NoDup (keys (Counter l))
  /\ (forall k n, In (k, n) (Counter l)
                  <-> In k l /\ n = count_occ string_dec l k)
  /\ sum (map snd (Counter l)) = List.length l.
Proof.
  destruct (fold_incr l [] (NoDup_nil _)) as (H1 & H2 & H3 & H4);
    [intros k n; discriminate|].
  fold (Counter l) in *. split; [assumption|]. split; [|exact H4].
  intros k n. rewrite (stored_in _ _ _ H1 H2), H3.
  unfold stored at 1. simpl. rewrite (count_occ_In string_dec). lia.
Qed.

End CounterFacts.

Section DescendingFacts.
Context {A : Type} (key : A -> nat).

Lemma insert_desc_perm x l : Permutation (insert_desc Nat.ltb key x l) (x :: l).
Proof.
  induction l as [|y l IH]; simpl; [reflexivity|].
  destruct (key x <? key y); [|reflexivity].
  rewrite IH. apply perm_swap.
Qed.

Lemma sorted_desc_perm l : Permutation (sorted_desc Nat.ltb key l) l.
Proof.
  induction l as [|x l IH]; simpl; [constructor|].
  rewrite insert_desc_perm. now constructor.
Qed.

Lemma insert_desc_descending x l :
  descending key l -> descending key (insert_desc Nat.ltb key x l).
Proof.
  unfold descending. induction 1 as [|y l Hs IH Hy]; simpl.
  - repeat constructor.
  - destruct (Nat.ltb_spec (key x) (key y)) as [Hlt|Hge].
    + constructor; [assumption|].
      rewrite Forall_forall in *. intros z Hz.
      apply (Permutation_in _ (insert_desc_perm x l)) in Hz.
      destruct Hz as [<-|Hz]; [lia | now apply Hy].
    + constructor; [now constructor|]. constructor; [assumption|].
      rewrite Forall_forall in *. intros z Hz. specialize (Hy z Hz). lia.
Qed.

(** The sort puts larger counts first. *)
Lemma sorted_desc_descending l : descending key (sorted_desc Nat.ltb key l).
Proof.
  induction l as [|x l IH]; simpl; [constructor|].
  now apply insert_desc_descending.
Qed.

Lemma insert_desc_stable n x l :
  filter (fun a => key a =? n) (insert_desc Nat.ltb key x l)
  = filter (fun a => key a =? n) (x :: l).
Proof.
  induction l as [|y l IH]; simpl; [reflexivity|].
  destruct (Nat.ltb_spec (key x) (key y)) as [Hlt|Hge]; [|reflexivity].
  simpl. rewrite IH. simpl.
  destruct (Nat.eqb_spec (key y) n) as [Ey|Ey];
    destruct (Nat.eqb_spec (key x) n) as [Ex|Ex]; try reflexivity.
  lia.
Qed.

(** The sort is stable: entries with equal counts keep their order. *)
Lemma sorted_desc_stable n l :
  filter (fun a => key a =? n) (sorted_desc Nat.ltb key l)
  = filter (fun a => key a =? n) l.
Proof.
  induction l as [|x l IH]; simpl; [reflexivity|].
  rewrite insert_desc_stable. simpl. now rewrite IH.
Qed.

End DescendingFacts.

(** X12.  [total_table_query_count] holds, for every table named in the
    cleaned table columns and for no other, its number of occurrences and
    that number over the total of occurrences; each table is listed once,
    larger counts come first, and tables with equal counts stay in the
    order in which the counter holds them. *)
Theorem total_table_query_count_counts (df : list summary_row) :
  let all_occurrences := List.concat (map os_query_table df) in
  let counts := most_common (Counter all_occurrences) in
  _generate_total_table_query_counts df
  = [ JObj (map (fun kv => (fst kv, JInt (snd kv))) counts);
      JObj (map (fun kv =>
                   (fst kv,
                    JFloat (RoundPercent2 (snd kv)
                                          (List.length all_occurrences))))
                counts) ]
  /\ NoDup (keys counts)
  /\ (forall t n,
        In (t, n) counts
        <-> In t all_occurrences
            /\ n = count_occ string_dec all_occurrences t)
  /\ descending snd counts
  /\ (forall n,
        filter (fun kv => snd kv =? n) counts
        = filter (fun kv => snd kv =? n) (Counter all_occurrences)).
Proof.
  intros occ counts.
  destruct (Counter_spec occ) as (Hnd & Hin & Hsum).
  pose proof (sorted_desc_perm snd (Counter occ)) as P.
  fold (most_common (Counter occ)) in P. fold counts in P.
  split; [|split; [|split; [|split]]].
  - unfold _generate_total_table_query_counts. fold occ. fold counts.
    now rewrite Hsum.
  - apply (Permutation_NoDup (Permutation_sym (Permutation_map fst P))).
    exact Hnd.
  - intros t n. rewrite <- Hin. split; apply Permutation_in;
      [assumption | now apply Permutation_sym].
  - apply sorted_desc_descending.
  - intros n. apply sorted_desc_stable.
Qed.

(* ================================================================== *)
(** ** The table counts by query *)
(* ================================================================== *)

Section TableCountFacts.

Lemma dict_set_new {V} k (v : V) d :
  dict_get k d = None -> dict_set k v d = d ++ [(k, v)].
Proof.
  induction d as [|[k' v'] d IH]; simpl; [reflexivity|].
  destruct (String.eqb k k'); [discriminate|]. intros H. now rewrite IH.
Qed.

(** What counting a query up does to the entries of a table. *)
Lemma count_query_names entries q :
  map fst (count_query entries q)
  = if existsb (fun e => pyname_eqb (fst e) q) entries
    then map fst entries else map fst entries ++ [q].
Proof.
  induction entries as [|[q' n] entries IH]; simpl; [reflexivity|].
  destruct (pyname_eqb q' q); simpl; [reflexivity|].
  rewrite IH. now destruct (existsb _ entries).
Qed.

Lemma count_query_nodup entries q :
  NoDup (map fst entries) -> NoDup (map fst (count_query entries q)).
Proof.
  intros H. rewrite count_query_names.
  destruct (existsb (fun e => pyname_eqb (fst e) q) entries) eqn:E;
    [assumption|].
  apply NoDup_app; [assumption | repeat constructor; intros [] |].
  intros x Hx [<-|[]]. apply in_map_iff in Hx. destruct Hx as [e [He Hin]].
  assert (X : existsb (fun e => pyname_eqb (fst e) q) entries = true).
  { apply existsb_exists. exists e. split; [assumption|].
    now apply pyname_eqb_eq. }
  congruence.
Qed.

Lemma count_query_positive entries q :
  (forall q' n, In (q', n) entries -> 1 <= n) ->
  forall q' n, In (q', n) (count_query entries q) -> 1 <= n.
Proof.
  induction entries as [|[q0 n0] entries IH]; intros P q' n; simpl.
  - intros [[= <- <-]|[]]. lia.
  - destruct (pyname_eqb q0 q).
    + intros [[= <- <-]|H].
      * lia.
      * apply (P q' n). now right.
    + intros [[= <- <-]|H].
      * apply (P q0 n0). now left.
      * apply IH with (q' := q'); [|assumption].
        intros q1 n1 H1. apply (P q1 n1). now right.
Qed.

Lemma count_query_queried entries q q' :
  queried (count_query entries q) q'
  = queried entries q' + (if pyname_eqb q q' then 1 else 0).
Proof.
  induction entries as [|[q0 n0] entries IH]; simpl.
  - reflexivity.
  - destruct (pyname_eqb q0 q) eqn:E; simpl.
    + apply pyname_eqb_eq in E. subst q0.
      destruct (pyname_eqb q q'); lia.
    + destruct (pyname_eqb q0 q') eqn:E'; [|exact IH].
      apply pyname_eqb_eq in E'. subst q0.
      destruct (pyname_eqb q q') eqn:E2; [|lia].
      apply pyname_eqb_eq in E2. subst q'.
      assert (X : pyname_eqb q q = true) by now apply pyname_eqb_eq.
      congruence.
Qed.

Lemma count_query_total entries q :
  total_queries (count_query entries q) = S (total_queries entries).
Proof.
  unfold total_queries.
  induction entries as [|[q0 n0] entries IH]; simpl; [reflexivity|].
  destruct (pyname_eqb q0 q); simpl; [reflexivity|]. rewrite IH. lia.
Qed.

Lemma queried_in entries q n :
  NoDup (map fst entries) ->
  (forall q' n', In (q', n') entries -> 1 <= n') ->
  In (q, n) entries <-> queried entries q = n /\ 1 <= n.
Proof.
  induction entries as [|[q0 n0] entries IH]; intros Hnd P; simpl.
  - split; [contradiction | lia].
  - inversion Hnd as [|? ? Hq0 Hnd']; subst.
    assert (P' : forall q' n', In (q', n') entries -> 1 <= n').
    { intros q1 n1 H1. apply (P q1 n1). now right. }
    destruct (pyname_eqb q0 q) eqn:E.
    + apply pyname_eqb_eq in E. subst q0. split.
      * intros [[= <-]|H].
        -- split; [reflexivity|]. apply (P q n0). now left.
        -- exfalso. apply Hq0. now apply (in_map fst) in H.
      * intros [<- _]. now left.
    + rewrite <- (IH Hnd' P'). split; [|tauto].
      intros [[= -> ->]|H]; [|assumption].
      assert (X : pyname_eqb q q = true) by now apply pyname_eqb_eq.
      congruence.
Qed.

Lemma count_table_set q res t :
  count_table q res t
  = dict_set t (count_query (match dict_get t res with
                             | Some entries => entries
                             | None => []
                             end) q) res.
Proof.
  unfold count_table. now destruct (dict_get t res).
Qed.

Lemma table_query_counts_pairs df :
  table_query_counts df
  = fold_left (fun res p => count_table (fst p) res (snd p))
              (query_table_pairs df) [].
Proof.
  unfold table_query_counts, query_table_pairs.
  generalize (@nil (string * list (pyname * nat))).
  induction df as [|row df IH]; intros res; simpl; [reflexivity|].
  rewrite fold_left_app, IH. f_equal.
  generalize res. induction (os_query_table row) as [|t ts IHt]; intros r;
    simpl; [reflexivity | apply IHt].
Qed.

Lemma pairs_tables df :
  map snd (query_table_pairs df) = List.concat (map os_query_table df).
Proof.
  unfold query_table_pairs. induction df as [|row df IH]; simpl; [reflexivity|].
  rewrite map_app, IH, map_map. simpl. now rewrite map_id.
Qed.

Lemma pairs_of_query q df :
  map snd (filter (fun p => pyname_eqb (fst p) q) (query_table_pairs df))
  = List.concat (map os_query_table (rows_named q df)).
Proof.
  unfold query_table_pairs, rows_named.
  induction df as [|row df IH]; simpl; [reflexivity|].
  rewrite filter_app, map_app, IH.
  destruct (pyname_eqb (query_name row) q) eqn:E; simpl; f_equal.
  - induction (os_query_table row) as [|t ts IHt]; simpl; [reflexivity|].
    rewrite E. simpl. now rewrite IHt.
  - induction (os_query_table row) as [|t ts IHt]; simpl; [reflexivity|].
    now rewrite E.
Qed.

Lemma pair_count_snoc q t ps q0 t0 :
  pair_count q t (ps ++ [(q0, t0)])
  = pair_count q t ps
    + (if string_dec t0 t then if pyname_eqb q0 q then 1 else 0 else 0).
Proof.
  unfold pair_count. rewrite filter_app, map_app, count_occ_app. simpl.
  destruct (pyname_eqb q0 q); simpl.
  - destruct (string_dec t0 t); reflexivity.
  - destruct (string_dec t0 t); reflexivity.
Qed.

Lemma pair_count_absent q t ps : ~ In t (map snd ps) -> pair_count q t ps = 0.
Proof.
  intros H. unfold pair_count. apply count_occ_not_In. intros Hin. apply H.
  apply in_map_iff in Hin. destruct Hin as [p [<- Hp]].
  apply filter_In in Hp. now apply in_map.
Qed.

Lemma counted_nil : counted [] [].
Proof.
  split; [constructor|]. split; [simpl; tauto|]. intros t e. discriminate.
Qed.

(** One more pair counted keeps the dictionary in step with the pairs. *)
Lemma counted_step res ps q t :
  counted res ps -> counted (count_table q res t) (ps ++ [(q, t)]).
Proof.
  intros (Hnd & Hkeys & Hent). rewrite count_table_set.
  set (e0 := match dict_get t res with Some entries => entries | None => [] end).
  assert (He0 : NoDup (map fst e0)
                /\ (forall q' n, In (q', n) e0 -> 1 <= n)
                /\ (forall q', queried e0 q' = pair_count q' t ps)
                /\ total_queries e0 = count_occ string_dec (map snd ps) t).
  { unfold e0. destruct (dict_get t res) as [e|] eqn:E; [now apply Hent|].
    apply dict_get_none in E. rewrite Hkeys in E.
    split; [constructor|]. split; [intros k n []|]. split.
    - intros q'. now rewrite pair_count_absent.
    - symmetry. now apply count_occ_not_In. }
  destruct He0 as (E1 & E2 & E3 & E4).
  split; [now apply dict_set_nodup|]. split.
  - intros t'. rewrite dict_set_in_keys, Hkeys, map_app, in_app_iff. simpl.
    intuition.
  - intros t' entries. rewrite map_app, count_occ_app. simpl.
    destruct (string_dec t t') as [<-|Hne].
    + rewrite dict_get_set_same. intros [= <-].
      split; [now apply count_query_nodup|].
      split; [now apply count_query_positive|]. split.
      * intros q'. rewrite count_query_queried, E3, pair_count_snoc.
        destruct (string_dec t t); [reflexivity | congruence].
      * rewrite count_query_total, E4. lia.
    + rewrite dict_get_set_other by assumption. intros H.
      destruct (Hent _ _ H) as (F1 & F2 & F3 & F4).
      split; [assumption|]. split; [assumption|]. split.
      * intros q'. rewrite F3, pair_count_snoc.
        destruct (string_dec t t'); [congruence | lia].
      * rewrite F4. lia.
Qed.

Lemma counted_fold ps :
  counted (fold_left (fun res p => count_table (fst p) res (snd p)) ps []) ps.
Proof.
  induction ps as [|[q t] ps IH] using rev_ind; [apply counted_nil|].
  rewrite fold_left_app. simpl. now apply counted_step.
Qed.

End TableCountFacts.

(** X13.  [table_counts_by_queries] is built from a dictionary that has one
    key for each table of the cleaned table columns; under a table it holds
    one entry for each query name that touched it, the name [None]
    included, with the number of times that name's rows list the table, and
    the entries add up to the table's occurrences, which is the total put
    in front.  Tables with larger totals come first and equal totals keep
    the order of the dictionary. *)
Theorem table_counts_by_queries_counts (df : list summary_row) :
  let result := table_query_counts df in
  let all_occurrences := List.concat (map os_query_table df) in
  let by_total := fun item : string * list (pyname * nat) =>
                    total_queries (snd item) in
  _generate_table_counts_by_query df
  = map (fun item =>
           (fst item,
            JArr (JObj [("total_queries", JInt (by_total item))]
                    :: map entry_json (snd item))))
        (sorted_desc Nat.ltb by_total result)
  /\ NoDup (keys result)
  /\ (forall t, In t (keys result) <-> In t all_occurrences)
  /\ (forall t entries,
        In (t, entries) result ->
        total_queries entries = count_occ string_dec all_occurrences t
        /\ NoDup (map fst entries)
        /\ (forall q n,
              In (q, n) entries
              <-> n = count_occ string_dec
                        (List.concat (map os_query_table (rows_named q df))) t
                  /\ 1 <= n)
        /\ forall q n,
             In (NameStr q, n) entries
             <-> n = count_occ string_dec
                       (List.concat (map os_query_table (members q df))) t
                 /\ 1 <= n)
  /\ Permutation (sorted_desc Nat.ltb by_total result) result
  /\ descending by_total (sorted_desc Nat.ltb by_total result)
  /\ (forall n,
        filter (fun item => by_total item =? n)
               (sorted_desc Nat.ltb by_total result)
        = filter (fun item => by_total item =? n) result).
Proof.
  intros result occ by_total.
  pose proof (counted_fold (query_table_pairs df)) as C.
  rewrite <- table_query_counts_pairs in C. fold result in C.
  destruct C as (Hnd & Hkeys & Hent).
  rewrite pairs_tables in Hkeys. fold occ in Hkeys.
  split; [reflexivity|]. split; [assumption|]. split; [assumption|].
  split; [|split; [apply sorted_desc_perm | split;
    [apply sorted_desc_descending | intros n; apply sorted_desc_stable]]].
  intros t entries Hin. apply in_dict_get in Hin; [|assumption].
  destruct (Hent _ _ Hin) as (E1 & E2 & E3 & E4).
  rewrite pairs_tables in E4. split; [exact E4|]. split; [exact E1|].
  assert (G : forall q n,
            In (q, n) entries
            <-> n = count_occ string_dec
                      (List.concat (map os_query_table (rows_named q df))) t
                /\ 1 <= n).
  { intros q n. rewrite (queried_in _ _ _ E1 E2), E3.
    unfold pair_count. rewrite pairs_of_query.
    split; intros [H1 H2]; auto. }
  split; [exact G|]. intros q n. apply G.
Qed.

Example sample_table_query_counts :
  table_query_counts
    [ SummaryRow (NameStr "Q1") ["users"; "groups"; "users"] [] [] [] [] [];
      SummaryRow (NameStr "Q2") ["groups"] [] [] [] [] [];
      SummaryRow (NameStr "Q1") ["users"] [] [] [] [] [] ]
  = [ ("users", [(NameStr "Q1", 3)]);
      ("groups", [(NameStr "Q1", 1); (NameStr "Q2", 1)]) ].
Proof. vm_compute. reflexivity. Qed.

(* ================================================================== *)
(** ** The table section as a whole *)
(* ================================================================== *)

Section TableSectionFacts.

(** After quarantine the deduplicated table columns name the tables of the
    cleaned table columns, whatever the rows. *)
Lemma quarantined_unique_tables data t :
  (forall r, In r data ->
     f_unique_osquery_table r = sorted_set (f_os_query_table r)) ->
  (exists r, In r (map quarantine_row data) /\ In t (unique_osquery_table r))
  <-> In t (List.concat (map os_query_table (map quarantine_row data))).
Proof.
  intros Hu. rewrite in_concat. split.
  - intros [r [Hr Ht]]. apply in_map_iff in Hr. destruct Hr as [r0 [<- Hr0]].
    exists (os_query_table (quarantine_row r0)). split.
    + apply in_map, in_map. exact Hr0.
    + unfold quarantine_row, __remove_invalid_elements_and_track in *.
      cbn [unique_osquery_table os_query_table fst] in *.
      rewrite (Hu r0 Hr0) in Ht. apply filter_In in Ht. apply filter_In.
      rewrite sorted_set_in in Ht. exact Ht.
  - intros [l [Hl Ht]]. apply in_map_iff in Hl. destruct Hl as [r [<- Hr]].
    exists r. split; [assumption|].
    apply in_map_iff in Hr. destruct Hr as [r0 [<- Hr0]].
    unfold quarantine_row, __remove_invalid_elements_and_track in *.
    cbn [unique_osquery_table os_query_table fst] in *.
    rewrite (Hu r0 Hr0). apply filter_In in Ht. apply filter_In.
    rewrite sorted_set_in. exact Ht.
Qed.

Lemma table_counts_keys df :
  keys (_generate_table_counts_by_query df)
  = keys (sorted_desc Nat.ltb
            (fun item : string * list (pyname * nat) =>
               total_queries (snd item))
            (table_query_counts df)).
Proof.
  unfold keys, _generate_table_counts_by_query. rewrite map_map. reflexivity.
Qed.

(** The keys of the two count dictionaries are the tables of the cleaned
    table columns. *)
Lemma total_count_keys df t :
  In t (keys (most_common (Counter (List.concat (map os_query_table df)))))
  <-> In t (List.concat (map os_query_table df)).
Proof.
  set (occ := List.concat (map os_query_table df)).
  destruct (Counter_spec occ) as (_ & Hin & _).
  pose proof (sorted_desc_perm snd (Counter occ)) as P.
  apply (Permutation_map fst) in P. fold (keys (Counter occ)) in P.
  unfold most_common, keys. split.
  - intros Ht. apply (Permutation_in _ P) in Ht.
    apply in_map_iff in Ht. destruct Ht as [[k n] [<- Hk]].
    now apply Hin in Hk.
  - intros Ht. apply (Permutation_in _ (Permutation_sym P)).
    apply in_map_iff. exists (t, count_occ string_dec occ t).
    split; [reflexivity|]. now apply Hin.
Qed.

Lemma by_query_keys df t :
  In t (keys (_generate_table_counts_by_query df))
  <-> In t (List.concat (map os_query_table df)).
Proof.
  rewrite table_counts_keys.
  pose proof (counted_fold (query_table_pairs df)) as C.
  rewrite <- table_query_counts_pairs in C.
  destruct C as (_ & Hkeys & _). rewrite pairs_tables in Hkeys.
  rewrite <- Hkeys.
  pose proof (sorted_desc_perm
                (fun item : string * list (pyname * nat) =>
                   total_queries (snd item))
                (table_query_counts df)) as P.
  apply (Permutation_map fst) in P. unfold keys.
  split; apply Permutation_in; [assumption | now apply Permutation_sym].
Qed.

End TableSectionFacts.

(** X14.  For a summarised dataset the two count dictionaries of the table
    section speak of the same tables, those of the cleaned table columns of
    all rows; [unique_table_list] is drawn from the groups and so names the
    tables of the rows whose name is not [None] only.  Every table of
    [unique_table_list] has its counts, and a table that has counts is
    missing from the list exactly when every row that names it has the
    name [None]. *)
Theorem table_section_tables
    (combined_df : list raw_record) (df : list summary_row) (t : string) :
  summarize_case_query_data combined_df = Ok df ->
  let listed := In t (_create_unique_table_list (_query_table_data df)) in
  let counted_in_total :=
    In t (keys (most_common (Counter (List.concat (map os_query_table df))))) in
  let counted_by_query := In t (keys (_generate_table_counts_by_query df)) in
  (counted_in_total <-> counted_by_query)
  /\ (counted_in_total <-> exists r, In r df /\ In t (os_query_table r))
  /\ (listed <-> exists r q, In r df /\ query_name r = NameStr q
                             /\ In t (os_query_table r))
  /\ (listed -> counted_in_total)
  /\ (counted_in_total /\ ~ listed
      <-> (exists r, In r df /\ In t (os_query_table r))
          /\ forall r, In r df -> In t (os_query_table r) ->
                       query_name r = NameNone).
Proof.
  intros H listed counted_in_total counted_by_query.
  apply summarize_inv in H. destruct H as [data [_ [-> [_ Hu]]]].
  set (df := map quarantine_row data) in *.
  assert (U : forall r, In r df ->
                forall x, In x (unique_osquery_table r)
                          <-> In x (os_query_table r)).
  { intros r Hr x. apply in_map_iff in Hr. destruct Hr as [r0 [<- Hr0]].
    destruct (Hu r0 Hr0) as [Ut _].
    unfold quarantine_row, __remove_invalid_elements_and_track.
    cbn [unique_osquery_table os_query_table fst].
    rewrite Ut, !filter_In, sorted_set_in. tauto. }
  assert (T : counted_in_total <-> exists r, In r df /\ In t (os_query_table r)).
  { unfold counted_in_total. rewrite total_count_keys, in_concat. split.
    - intros [l [Hl Ht]]. apply in_map_iff in Hl.
      destruct Hl as [r [<- Hr]]. now exists r.
    - intros [r [Hr Ht]]. exists (os_query_table r).
      split; [now apply in_map | assumption]. }
  assert (L : listed <-> exists r q, In r df /\ query_name r = NameStr q
                                     /\ In t (os_query_table r)).
  { unfold listed. rewrite unique_table_list_in.
    split; intros [r [q [Hr [Hq Ht]]]]; exists r, q;
      (split; [assumption|]); (split; [assumption|]);
      now apply (U r Hr). }
  split; [|split; [exact T|split; [exact L|split]]].
  - unfold counted_in_total, counted_by_query.
    now rewrite total_count_keys, by_query_keys.
  - rewrite L, T. intros [r [q [Hr [_ Ht]]]]. now exists r.
  - rewrite L, T. split.
    + intros [E N]. split; [exact E|]. intros r Hr Ht.
      destruct (query_name r) as [q|] eqn:Q; [|reflexivity].
      exfalso. apply N. now exists r, q.
    + intros [E N]. split; [exact E|].
      intros [r [q [Hr [Hq Ht]]]]. rewrite (N r Hr Ht) in Hq. discriminate.
Qed.

Lemma table_section_tables_witness :
  In "processes"
     (_create_unique_table_list (_query_table_data Samples.null_name_summary))
  /\ ~ In "users"
       (_create_unique_table_list
          (_query_table_data Samples.null_name_summary))
  /\ In "users" (keys (_generate_table_counts_by_query
                         Samples.null_name_summary)).
Proof.
  assert (H : summarize_case_query_data Samples.with_null_name
              = Ok Samples.null_name_summary) by (vm_compute; reflexivity).
  destruct (table_section_tables Samples.with_null_name
              Samples.null_name_summary "users" H) as (A & B & _ & _ & D).
  split; [vm_compute; tauto|].
  assert (X : (exists r, In r Samples.null_name_summary
                         /\ In "users" (os_query_table r))
              /\ forall r, In r Samples.null_name_summary ->
                           In "users" (os_query_table r) ->
                           query_name r = NameNone).
  { split.
    - eexists. split; [left; reflexivity | left; reflexivity].
    - intros r [<-|[<-|[]]]; [reflexivity|].
      intros [E|[]]. discriminate E. }
  apply D in X. destruct X as [X1 X2].
  split; [exact X2 | now apply A].
Defined.

(* ================================================================== *)
(** ** The fourth bucket *)
(* ================================================================== *)

Section NotSortedFacts.

(** Below 128 the word characters are the letters, the digits and the
    underscore. *)
Lemma ascii_word c :
  (code c <? 128) = true -> is_word c = true ->
  is_letter c || is_digit c || is_underscore c = true.
Proof.
  destruct c as [[] [] [] [] [] [] [] []]; vm_compute; congruence.
Qed.

Lemma search_chr_none p s : forall pv,
  Re.search_from (Re.Chr p) pv s = None ->
  all_chars (fun c => negb (p c)) s = true.
Proof.
  induction s as [|c s IH]; intros pv; simpl; [reflexivity|].
  unfold Re.match_at. simpl. destruct (p c); [discriminate|].
  intros H. simpl. now apply (IH (Some c)).
Qed.

Lemma search_chr_some p s : forall pv,
  is_some (Re.search_from (Re.Chr p) pv s) = true -> s <> EmptyString.
Proof. intros pv. destruct s; [simpl; discriminate | discriminate]. Qed.

End NotSortedFacts.

(** X15.  A token made only of characters below 128 is never filed under
    [not_sorted]. *)
Theorem ascii_tokens_are_sorted (s : string) :
  all_chars (fun c => code c <? 128) s = true ->
  classify s <> not_sorted.
Proof.
  intros Hascii. unfold classify.
  destruct (matches_group_one s) eqn:G; [discriminate|].
  destruct (has_letter s) eqn:L; simpl;
    [|discriminate].
  destruct (has_non_word s) eqn:W; simpl; [discriminate|].
  exfalso.
  assert (Hne : s <> EmptyString).
  { unfold has_letter, Re.search in L. now apply search_chr_some in L. }
  assert (Hw : all_chars (fun c => is_letter c || is_digit c || is_underscore c)
                 s = true).
  { unfold has_non_word, Re.search in W.
    destruct (Re.search_from (Re.Chr (fun c => negb (is_word c))) None s)
      eqn:E; [discriminate|].
    apply search_chr_none in E. clear -E Hascii.
    induction s as [|c s IH]; simpl in *; [reflexivity|].
    apply andb_true_iff in E, Hascii.
    destruct E as [Ec E], Hascii as [Hc Hs].
    rewrite IH by assumption. rewrite andb_true_r.
    apply ascii_word; [assumption|]. now apply negb_true_iff, negb_false_iff in Ec. }
  pose proof (whole_accepts _ _ Hne Hw) as M.
  unfold matches_group_one, group_one_patterns in G. cbn [existsb] in G.
  rewrite M in G. rewrite !orb_true_r in G. discriminate.
Qed.

Lemma ascii_tokens_are_sorted_witness : classify "COUNT(pid)" <> not_sorted.
Proof. apply ascii_tokens_are_sorted. vm_compute. reflexivity. Defined.

Example not_sorted_is_reachable :
  classify (String "a" (String (ascii_of_nat 233) EmptyString)) = not_sorted.
Proof. vm_compute. reflexivity. Qed.

(* ================================================================== *)
(** ** The dataset statistics *)
(* ================================================================== *)

Section StatsFacts.

Lemma dedup_length_le l : List.length (dedup l) <= List.length l.
Proof.
  induction l as [|x l IH]; simpl; [lia|].
  destruct (str_in x l); simpl; lia.
Qed.

Lemma dedup_nonempty l : l <> [] -> dedup l <> [].
Proof.
  intros H E. destruct l as [|x l]; [congruence|].
  assert (Hx : In x (dedup (x :: l))) by (apply dedup_in; now left).
  rewrite E in Hx. contradiction.
Qed.

Lemma sum_lengths {A} (ls : list (list A)) :
  sum (map (@List.length A) ls) = List.length (List.concat ls).
Proof.
  induction ls as [|l ls IH]; simpl; [reflexivity|].
  now rewrite length_app, IH.
Qed.

Lemma case_counts_le column :
  fst (_case_counts column) <= snd (_case_counts column).
Proof.
  unfold _case_counts. cbn [fst snd]. rewrite sum_lengths.
  apply dedup_length_le.
Qed.

Lemma some_values_app {A} (a b : list (option A)) :
  some_values (a ++ b) = some_values a ++ some_values b.
Proof. unfold some_values. now rewrite map_app, concat_app. Qed.

End StatsFacts.

(** X16.  [_case_counts] never reports more unique cases than cases; the
    total is the number of values in the cells that parse as lists, and a
    cell that does not parse changes neither count. *)
Theorem case_counts_bounds (column : list (option (list string))) :
  fst (_case_counts column) <= snd (_case_counts column)
  /\ snd (_case_counts column)
     = List.length (List.concat (some_values column))
  /\ (fst (_case_counts column) = 0 <-> snd (_case_counts column) = 0)
  /\ forall rest,
       _case_counts (column ++ None :: rest) = _case_counts (column ++ rest).
Proof.
  assert (Hskip : forall rest,
            _case_counts (column ++ None :: rest)
            = _case_counts (column ++ rest)).
  { intros rest. unfold _case_counts. now rewrite !some_values_app. }
  unfold _case_counts at 1 2 3 4 5. cbn [fst snd]. rewrite sum_lengths.
  split; [apply dedup_length_le|]. split; [reflexivity|].
  split; [|exact Hskip].
  destruct (List.concat (some_values column)) as [|x l] eqn:E;
    [simpl; tauto|].
  pose proof (dedup_nonempty (x :: l)) as H.
  destruct (dedup (x :: l)) as [|y d].
  - exfalso. apply H; [discriminate | reflexivity].
  - simpl. split; discriminate.
Qed.

Example case_counts_sample :
  _case_counts [Some ["c1"; "c2"]; None; Some ["c1"]] = (2, 3).
Proof. reflexivity. Qed.

(** X17.  In the statistics, the total number of customers is always the
    number of rows, the same figure as the number of queries analysed; the
    number of unique customers is at most that, and at least 1 when there is
    a row; the number of unique cases is at most the total of cases. *)
Theorem stats_counts_are_consistent
    (list_of_set : list string -> list string) (df_combined : list raw_record) :
  exists stats unique_customers unique_cases total_cases,
    add_osquery_data_stats_summary list_of_set true df_combined
    = JArr [JObj stats]
    /\ dict_get "total_number_queries_analyzed" stats
       = Some (JInt (List.length df_combined))
    /\ dict_get "total_number_of_customers_analyzed" stats
       = Some (JInt (List.length df_combined))
    /\ dict_get "number_of_unique_customers" stats
       = Some (JInt unique_customers)
    /\ unique_customers <= List.length df_combined
    /\ (df_combined <> [] -> 1 <= unique_customers)
    /\ dict_get "number_of_unique_cases" stats = Some (JInt unique_cases)
    /\ dict_get "total_number_of_cases_analyzed" stats
       = Some (JInt total_cases)
    /\ unique_cases <= total_cases.
Proof.
  unfold add_osquery_data_stats_summary. cbn [negb].
  pose proof (case_counts_le (map Possible_Cases df_combined)) as B.
  destruct (_case_counts (map Possible_Cases df_combined)) as [uc tc].
  unfold _customer_counts. rewrite length_map.
  set (ids := map strip (map Customer_ID df_combined)).
  eexists. exists (List.length (dedup ids)), uc, tc.
  split; [reflexivity|]. repeat (split; [reflexivity|]).
  split; [|split; [|repeat (split; [reflexivity|]); exact B]].
  - pose proof (dedup_length_le ids) as H. unfold ids in H.
    now rewrite !length_map in H.
  - intros Hne.
    assert (Hids : ids <> []).
    { unfold ids. destruct df_combined; [congruence | discriminate]. }
    apply dedup_nonempty in Hids. destruct (dedup ids); [congruence|].
    simpl. lia.
Qed.

(* ================================================================== *)
(** ** The extracted SQL statement *)
(* ================================================================== *)

Section CommandFacts.







End CommandFacts.


Example extract_command_sample :
  extract_command
    (Samples.payload "Q"
       (String "a" (backslash_n ++ backslash_n ++ "b")))
  = Ok (dquote ++ String "a" (Re.newline ++ Re.newline ++ "b") ++ dquote)%string
  /\ extract_command (Decoded (QueryJson (Some PyNone) None None None None None))
     = Raise AttributeError
  /\ extract_command NotObject = Raise AttributeError.
Proof. vm_compute. repeat split; reflexivity. Qed.

(* ================================================================== *)
(** ** The percentage views *)
(* ================================================================== *)

Section PercentageFacts.

Lemma insert_desc_perm_any {A K} (ltb : K -> K -> bool) (key : A -> K) x l :
  Permutation (insert_desc ltb key x l) (x :: l).
Proof.
  induction l as [|y l IH]; simpl; [reflexivity|].
  destruct (ltb (key x) (key y)); [|reflexivity].
  rewrite IH. apply perm_swap.
Qed.

(** Whatever the comparison, the sort only reorders. *)
Lemma sorted_desc_perm_any {A K} (ltb : K -> K -> bool) (key : A -> K) l :
  Permutation (sorted_desc ltb key l) l.
Proof.
  induction l as [|x l IH]; simpl; [constructor|].
  rewrite insert_desc_perm_any. now constructor.
Qed.

(** Filling a dictionary from entries with distinct new names lists them in
    order. *)
Lemma fold_dict_set_fresh {A V} (nm : A -> string) (val : A -> V) l :
  forall d,
    NoDup (keys d ++ map nm l) ->
    fold_left (fun d e => dict_set (nm e) (val e) d) l d
    = d ++ map (fun e => (nm e, val e)) l.
Proof.
  induction l as [|a l IH]; intros d Hnd; simpl.
  - now rewrite app_nil_r.
  - assert (Hnone : dict_get (nm a) d = None).
    { apply dict_get_none. intros Hin.
      apply NoDup_remove_2 in Hnd. apply Hnd, in_or_app. now left. }
    rewrite (dict_set_new _ _ _ Hnone), IH.
    + now rewrite <- app_assoc.
    + unfold keys in *. rewrite map_app, <- app_assoc. exact Hnd.
Qed.

Lemma fold_no_match {A B} (nm : A -> string) (f : A -> B) k l : forall v,
  ~ In k (map nm l) ->
  fold_left (fun v x => if String.eqb (nm x) k then f x else v) l v = v.
Proof.
  induction l as [|x l IH]; intros v Hk; simpl; [reflexivity|].
  destruct (String.eqb_spec (nm x) k) as [E|_].
  - exfalso. apply Hk. now left.
  - apply IH. intros H. apply Hk. now right.
Qed.

(** Among entries with distinct names, the scan for a name ends on the entry
    that carries it. *)
Lemma fold_last_match {A B} (nm : A -> string) (f : A -> B) e l : forall v,
  NoDup (map nm l) -> In e l ->
  fold_left (fun v x => if String.eqb (nm x) (nm e) then f x else v) l v = f e.
Proof.
  induction l as [|x l IH]; intros v Hnd Hin; [contradiction|].
  simpl in *. inversion Hnd as [|? ? Hx Hl]; subst.
  destruct Hin as [->|Hin].
  - rewrite String.eqb_refl. now apply fold_no_match.
  - now apply IH.
Qed.

End PercentageFacts.

(** X19.  Both percentage views have one entry for each query name of the
    summary that is not [None], and no other: [queries_by_percentage] is a
    reordering of the names with their percentages, and
    [queries_by_percentage_count] lists the same names in the same order,
    each with that percentage and the number of summary rows of that name.
    A percentage is the share of the name's rows in the rows that have a
    name, not in all rows of the summary. *)
Theorem percentage_views_cover_every_group
    (list_of_set : list string -> list string)
    (float_ltb : pyfloat -> pyfloat -> bool) (df : list summary_row) :
  let queries :=
    __calculate_query_percentage (osquery_query_summary_list list_of_set df)
                                 (counter df) in
  let view := __create_queries_by_percentage float_ltb queries in
  Permutation view
    (map (fun q => (q, Round5Times100 (List.length (members q df))
                                      (counter df)))
         (group_keys df))
  /\ counter df = List.length (dropna (map query_name df))
  /\ NoDup (keys view)
  /\ (forall q, In q (keys view)
                <-> exists r, In r df /\ query_name r = NameStr q)
  /\ __create_queries_by_percentage_count float_ltb queries
     = map (fun kv =>
              (fst kv,
               JObj [ ("query_execution_percentage", JFloat (snd kv));
                      ("query_execution_count",
                       JInt (List.length (members (fst kv) df))) ]))
           view.
Proof.
  intros queries view.
  set (nm := fun e : query_summary * pyfloat => qs_query_name (fst e)).
  assert (Q : queries
              = map (fun q =>
                       (summarize_group list_of_set
                          (GroupRow q (map unique_osquery_table (members q df))
                             (_flatten (map unique_osquery_table (members q df)))
                             (_flatten (map os_query_table_removed_items
                                            (members q df)))),
                        Round5Times100 (List.length (members q df))
                                       (counter df)))
                    (group_keys df)).
  { unfold queries, __calculate_query_percentage, osquery_query_summary_list,
      _query_table_data.
    rewrite !map_map. apply map_ext. intros q.
    cbn [summarize_group frequency_of_execution table_list].
    now rewrite length_map. }
  assert (N : map nm queries = group_keys df).
  { rewrite Q, map_map. apply map_id. }
  assert (D : fold_left (fun d e => dict_set (nm e) (snd e) d) queries []
              = map (fun q => (q, Round5Times100 (List.length (members q df))
                                                 (counter df)))
                    (group_keys df)).
  { rewrite (fold_dict_set_fresh nm snd).
    - rewrite Q, map_map. reflexivity.
    - simpl. rewrite N. apply sorted_set_nodup. }
  assert (P : Permutation view
                (map (fun q => (q, Round5Times100 (List.length (members q df))
                                                  (counter df)))
                     (group_keys df))).
  { unfold view, __create_queries_by_percentage. fold nm.
    cbv beta. rewrite <- D. apply sorted_desc_perm_any. }
  assert (K : Permutation (keys view) (group_keys df)).
  { unfold keys. rewrite (Permutation_map fst P), map_map. simpl.
    now rewrite map_id. }
  split; [exact P|]. split; [apply counter_sum|]. split.
  { apply (Permutation_NoDup (Permutation_sym K)), sorted_set_nodup. }
  split.
  { intros q. rewrite <- group_keys_in. split; apply Permutation_in;
      [assumption | now apply Permutation_sym]. }
  unfold __create_queries_by_percentage_count. fold view.
  apply map_ext_in. intros [k v] Hkv. cbn [fst snd]. f_equal.
  apply (Permutation_in _ P) in Hkv. apply in_map_iff in Hkv.
  destruct Hkv as [q [E Hq]]. injection E as <- <-.
  unfold percentage_and_count.
  set (e := (summarize_group list_of_set
               (GroupRow q (map unique_osquery_table (members q df))
                  (_flatten (map unique_osquery_table (members q df)))
                  (_flatten (map os_query_table_removed_items (members q df)))),
             Round5Times100 (List.length (members q df)) (counter df))).
  assert (He : In e queries).
  { rewrite Q. apply in_map_iff. now exists q. }
  change q with (nm e) at 1.
  rewrite (fold_last_match nm
             (fun query =>
                JObj [ ("query_execution_percentage", JFloat (snd query));
                       ("query_execution_count",
                        JInt (frequency_of_execution (fst query))) ])
             e queries).
  - unfold e. cbn [fst snd summarize_group frequency_of_execution table_list].
    now rewrite length_map.
  - rewrite N. apply sorted_set_nodup.
  - exact He.
Qed.

(* ================================================================== *)
(** ** Moving [extracted_name] next to [Query] *)
(* ================================================================== *)

Section ColumnFacts.
Import Columns.

Lemma list_index_skip x a : forall l k,
  list_index x (a ++ l) (List.length a + k)
  = option_map (Nat.add (List.length a)) (list_index x l k).
Proof.
  induction a as [|y a IH]; intros l k; simpl.
  - destruct (list_index x l k); reflexivity.
  - rewrite IH. destruct (list_index x l k); reflexivity.
Qed.

Lemma list_index_first x a l :
  ~ In x a -> list_index x (a ++ x :: l) 0 = Some (List.length a).
Proof.
  induction a as [|y a IH]; intros H; simpl.
  - now rewrite String.eqb_refl.
  - destruct (String.eqb_spec y x) as [->|_].
    + exfalso. apply H. now left.
    + rewrite IH; [reflexivity|]. intros Hin. apply H. now right.
Qed.

Lemma list_index_absent x l : forall k, ~ In x l -> list_index x l k = None.
Proof.
  induction l as [|y l IH]; intros k H; simpl; [reflexivity|].
  assert (Hl : ~ In x l) by (intros Hin; apply H; now right).
  destruct k.
  - destruct (String.eqb_spec y x) as [->|_].
    + exfalso. apply H. now left.
    + now rewrite IH.
  - now rewrite IH.
Qed.

Lemma firstn_exact {A} (a l : list A) : firstn (List.length a) (a ++ l) = a.
Proof. induction a as [|y a IH]; simpl; [now destruct l | now rewrite IH]. Qed.

Lemma skipn_exact {A} (a l : list A) : skipn (List.length a) (a ++ l) = l.
Proof. induction a as [|y a IH]; simpl; [reflexivity | exact IH]. Qed.

Lemma insert_after a x l : insert (List.length a) x (a ++ l) = a ++ x :: l.
Proof. unfold insert. now rewrite firstn_exact, skipn_exact. Qed.

Lemma pop_at a x l : pop (List.length a) (a ++ x :: l) = a ++ l.
Proof.
  unfold pop. rewrite firstn_exact.
  change (S (List.length a)) with (List.length a + 1) || idtac.
  replace (S (List.length a)) with (List.length (a ++ [x]))
    by (rewrite length_app; simpl; lia).
  replace (a ++ x :: l) with ((a ++ [x]) ++ l) by (now rewrite <- app_assoc).
  now rewrite skipn_exact.
Qed.

Lemma assign_fresh names : forall cols,
  NoDup names -> (forall n, In n names -> ~ In n cols) ->
  fold_left (fun c name => assign name c) names cols = cols ++ names.
Proof.
  induction names as [|n names IH]; intros cols Hnd Hfresh; simpl.
  - now rewrite app_nil_r.
  - inversion Hnd as [|? ? Hn Hnames]; subst.
    unfold assign at 2.
    destruct (str_in n cols) eqn:E.
    + apply str_in_iff in E. exfalso. apply (Hfresh n); [now left | assumption].
    + rewrite IH; [now rewrite <- app_assoc | assumption |].
      intros m Hm Hin. apply in_app_or in Hin. destruct Hin as [Hin|[<-|[]]].
      * apply (Hfresh m); [now right | assumption].
      * contradiction.
Qed.

(** The assignments only add labels, all of them new and among the names
    assigned. *)
Lemma assign_extends names : forall cols,
  exists extra,
    fold_left (fun c name => assign name c) names cols = cols ++ extra
    /\ forall n, In n extra -> In n names /\ ~ In n cols.
Proof.
  induction names as [|n names IH]; intros cols; simpl.
  - exists []. split; [now rewrite app_nil_r | contradiction].
  - unfold assign at 2. destruct (str_in n cols) eqn:S.
    + destruct (IH cols) as [extra [E H]]. exists extra. split; [exact E|].
      intros m Hm. destruct (H m Hm). auto.
    + destruct (IH (cols ++ [n])) as [extra [E H]]. exists (n :: extra).
      split; [now rewrite E, <- app_assoc|].
      intros m [<-|Hm].
      * split; [now left|]. intros Hin. apply str_in_iff in Hin. congruence.
      * destruct (H m Hm) as [H1 H2]. split; [now right|].
        intros Hin. apply H2, in_or_app. now left.
Qed.

Lemma extracted_columns_nodup : NoDup extracted_columns.
Proof.
  unfold extracted_columns.
  repeat (constructor; [simpl; intuition discriminate|]). constructor.
Qed.

End ColumnFacts.

(** X20.  When the frame has a [Query] column and none of the six extracted
    columns yet, the reordering puts [extracted_name] right after [Query],
    leaves the columns before and after [Query] in their order, and keeps
    the other five extracted columns at the end. *)
Theorem extracted_name_follows_query (before after : list string) :
  ~ In "Query" before ->
  (forall n, In n Columns.extracted_columns ->
             ~ In n (before ++ "Query" :: after)) ->
  Columns.reordered_columns (before ++ "Query" :: after)
  = inr (before ++ "Query" :: "extracted_name" :: after
           ++ tl Columns.extracted_columns).
Proof.
  intros HQ Hfresh. unfold Columns.reordered_columns.
  assert (S1 : str_in "Query" (before ++ "Query" :: after) = true).
  { apply str_in_iff, in_or_app. right. now left. }
  rewrite S1. cbn [negb].
  rewrite (assign_fresh _ _ extracted_columns_nodup Hfresh).
  rewrite <- app_assoc. cbn [app].
  rewrite (list_index_first _ _ _ HQ).
  replace (List.length before + 1) with (List.length (before ++ ["Query"]))
    by (rewrite length_app; reflexivity).
  replace (before ++ "Query" :: after ++ Columns.extracted_columns)
    with ((before ++ ["Query"]) ++ after ++ Columns.extracted_columns)
    by (now rewrite <- app_assoc).
  rewrite insert_after.
  replace ((before ++ ["Query"]) ++ "extracted_name"
             :: after ++ Columns.extracted_columns)
    with ((before ++ ["Query"; "extracted_name"])
            ++ (after ++ "extracted_name" :: tl Columns.extracted_columns))
    by (now rewrite <- !app_assoc).
  replace (List.length (before ++ ["Query"]) + 1)
    with (List.length (before ++ ["Query"; "extracted_name"]) + 0)
    by (rewrite !length_app; simpl; lia).
  rewrite list_index_skip.
  assert (Ha : ~ In "extracted_name" after).
  { intros Hin. apply (Hfresh "extracted_name"); [now left|].
    apply in_or_app. right. now right. }
  rewrite (list_index_first _ _ _ Ha). cbn [option_map].
  replace (List.length (before ++ ["Query"; "extracted_name"])
           + List.length after)
    with (List.length ((before ++ ["Query"; "extracted_name"]) ++ after))
    by (now rewrite length_app).
  rewrite app_assoc, pop_at. f_equal.
  now rewrite <- !app_assoc.
Qed.

Lemma extracted_name_follows_query_witness :
  Columns.reordered_columns ["Case ID"; "Query"; "Region"]
  = inr [ "Case ID"; "Query"; "extracted_name"; "Region";
          "extracted_sql_statement"; "extracted_principal_type";
          "extracted_query_id"; "extracted_query_type";
          "extracted_query_categories" ].
Proof.
  apply (extracted_name_follows_query ["Case ID"] ["Region"]).
  - simpl. intuition discriminate.
  - intros n Hn. simpl in *. intuition (subst; discriminate).
Defined.

(** X21.  When the frame already has an [extracted_name] column before
    [Query], and none after it, the reordering stops with [ValueError]: the
    search for a second [extracted_name] behind the inserted one finds
    nothing. *)
Theorem extracted_name_before_query_raises (before after : list string) :
  ~ In "Query" before ->
  In "extracted_name" before ->
  ~ In "extracted_name" after ->
  Columns.reordered_columns (before ++ "Query" :: after)
  = inl Columns.ListValueError.
Proof.
  intros HQ Hb Ha. unfold Columns.reordered_columns.
  assert (S1 : str_in "Query" (before ++ "Query" :: after) = true).
  { apply str_in_iff, in_or_app. right. now left. }
  rewrite S1. cbn [negb].
  destruct (assign_extends Columns.extracted_columns
              (before ++ "Query" :: after)) as [extra [E Hextra]].
  rewrite E.
  assert (Hx : ~ In "extracted_name" extra).
  { intros Hin. destruct (Hextra _ Hin) as [_ Hn]. apply Hn.
    apply in_or_app. now left. }
  rewrite <- app_assoc. cbn [app].
  rewrite (list_index_first _ _ _ HQ).
  replace (List.length before + 1) with (List.length (before ++ ["Query"]))
    by (rewrite length_app; reflexivity).
  replace (before ++ "Query" :: after ++ extra)
    with ((before ++ ["Query"]) ++ after ++ extra)
    by (now rewrite <- app_assoc).
  rewrite insert_after.
  replace ((before ++ ["Query"]) ++ "extracted_name" :: after ++ extra)
    with ((before ++ ["Query"; "extracted_name"]) ++ (after ++ extra))
    by (now rewrite <- !app_assoc).
  replace (List.length (before ++ ["Query"]) + 1)
    with (List.length (before ++ ["Query"; "extracted_name"]) + 0)
    by (rewrite !length_app; simpl; lia).
  rewrite list_index_skip, list_index_absent; [reflexivity|].
  intros Hin. apply in_app_or in Hin. tauto.
Qed.

Lemma extracted_name_before_query_raises_witness :
  Columns.reordered_columns ["extracted_name"; "Query"; "Region"]
  = inl Columns.ListValueError.
Proof.
  apply (extracted_name_before_query_raises ["extracted_name"] ["Region"]).
  - simpl. intuition discriminate.
  - simpl. tauto.
  - simpl. intuition discriminate.
Defined.

Example reordered_columns_samples :
  Columns.reordered_columns ["Case ID"; "Region"]
  = inl (Columns.ColumnKeyError "Query")
  /\ Columns.reordered_columns ["Query"; "extracted_name"]
     = inr [ "Query"; "extracted_name"; "extracted_sql_statement";
             "extracted_principal_type"; "extracted_query_id";
             "extracted_query_type"; "extracted_query_categories" ].
Proof. split; reflexivity. Qed.

(* ================================================================== *)
(** ** Rows without a query or without a command *)
(* ================================================================== *)

(** X22.  A row whose [Query] cell is null is treated like one that fails to
    decode: the column extractors return their sentinels, and the query
    summary is the one the dataset without the row would give. *)
Theorem null_row_is_skipped
    (cases : option (list string)) (customer region : string)
    (created : option string) (pre post : list raw_record) :
  let row := RawRecord Null cases customer region created in
  extract_name (Query row) = Ok (NameStr "Unnamed")
  /\ extract_command (Query row)
     = Ok (dquote ++ "SQL statement not available" ++ dquote)%string
  /\ extract_principal_type (Query row) = Ok (PyStr "Type not available")
  /\ extract_query_id (Query row) = Ok (PyStr "ID not available")
  /\ extract_query_type (Query row) = Ok (PyStr "Type not available")
  /\ extract_query_categories (Query row) = Ok "Categories not available"
  /\ query_summary_data (pre ++ row :: post) = query_summary_data (pre ++ post)
  /\ summarize_case_query_data (pre ++ row :: post)
     = summarize_case_query_data (pre ++ post).
Proof.
  intros row. repeat (split; [reflexivity|]).
  assert (E : query_summary_data (pre ++ row :: post)
              = query_summary_data (pre ++ post))
    by (apply query_summary_data_skip; reflexivity).
  split; [exact E|].
  unfold summarize_case_query_data. now rewrite E.
Qed.

(** X23.  A payload that decodes but has no [command] key is summarised
    from the empty text: its row is kept, under its name or [Unnamed], with
    no table, no attribute and nothing quarantined, and so counts towards
    the frequency of its name. *)
Theorem missing_command_gives_empty_row
    (name : option pyname)
    (principal_type query_id query_type : option pyvalue)
    (categories : option categories_value)
    (cases : option (list string)) (customer region : string)
    (created : option string) :
  let payload :=
    QueryJson None name principal_type query_id query_type categories in
  let row := RawRecord (Decoded payload) cases customer region created in
  decodable row = true
  /\ row_facts row
     = Ok [FactsRow (get name (NameStr "Unnamed")) [] [] [] []]
  /\ extract_name (Query row) = Ok (get name (NameStr "Unnamed"))
  /\ summarize_case_query_data [row]
     = Ok [SummaryRow (get name (NameStr "Unnamed")) [] [] [] [] [] []].
Proof. intros payload row. repeat split. Qed.

(* ================================================================== *)
(** ** The row cap *)
(* ================================================================== *)

Section RowCapFacts.
Import Config.

Lemma digit_is_plain c :
  is_digit c = true ->
  int_space c = false /\ (code c =? 43) = false /\ (code c =? 45) = false.
Proof.
  destruct c as [[] [] [] [] [] [] [] []]; vm_compute; intuition congruence.
Qed.

Lemma rstrip_by_id sp s :
  all_chars (fun c => negb (sp c)) s = true -> rstrip_by sp s = s.
Proof.
  induction s as [|c s IH]; simpl; [reflexivity|].
  intros H. apply andb_true_iff in H. destruct H as [Hc Hs].
  rewrite (IH Hs). apply negb_true_iff in Hc. rewrite Hc.
  now destruct s.
Qed.

Lemma numeral_digits u : all_chars is_digit (NilEmpty.string_of_uint u) = true.
Proof. induction u; simpl; auto. Qed.

Lemma parse_digit_step c t acc b k :
  is_digit c = true -> code c - 48 = k ->
  parse_digits (String c t) (Z.of_nat acc) b
  = parse_digits t (Z.of_nat (k + 10 * acc)) true.
Proof.
  intros Hc <-. cbn [parse_digits]. rewrite Hc. f_equal. lia.
Qed.

(** Reading a numeral is evaluating it, digit by digit. *)
Lemma parse_numeral u : forall acc b,
  u <> Decimal.Nil \/ b = true ->
  parse_digits (NilEmpty.string_of_uint u) (Z.of_nat acc) b
  = Some (Z.of_nat (Nat.of_uint_acc u acc)).
Proof.
  induction u; intros acc b H;
    cbn [NilEmpty.string_of_uint Nat.of_uint_acc];
    rewrite ?Nat.tail_mul_spec.
  - destruct H as [H | ->]; [congruence | reflexivity].
  - rewrite (parse_digit_step "0"%char _ acc b 0 eq_refl eq_refl).
    apply IHu. now right.
  - rewrite (parse_digit_step "1"%char _ acc b 1 eq_refl eq_refl).
    apply IHu. now right.
  - rewrite (parse_digit_step "2"%char _ acc b 2 eq_refl eq_refl).
    apply IHu. now right.
  - rewrite (parse_digit_step "3"%char _ acc b 3 eq_refl eq_refl).
    apply IHu. now right.
  - rewrite (parse_digit_step "4"%char _ acc b 4 eq_refl eq_refl).
    apply IHu. now right.
  - rewrite (parse_digit_step "5"%char _ acc b 5 eq_refl eq_refl).
    apply IHu. now right.
  - rewrite (parse_digit_step "6"%char _ acc b 6 eq_refl eq_refl).
    apply IHu. now right.
  - rewrite (parse_digit_step "7"%char _ acc b 7 eq_refl eq_refl).
    apply IHu. now right.
  - rewrite (parse_digit_step "8"%char _ acc b 8 eq_refl eq_refl).
    apply IHu. now right.
  - rewrite (parse_digit_step "9"%char _ acc b 9 eq_refl eq_refl).
    apply IHu. now right.
Qed.

Lemma to_uint_not_nil n : Nat.to_uint n <> Decimal.Nil.
Proof.
  intros E. pose proof (DecimalNat.Unsigned.of_to n) as H.
  rewrite E in H. destruct n; [discriminate E | discriminate H].
Qed.

Lemma count_digits_all s :
  all_chars is_digit s = true -> count_digits s = String.length s.
Proof.
  induction s as [|c t IH]; simpl; [reflexivity|].
  intros H. apply andb_true_iff in H. destruct H as [-> Ht].
  now rewrite (IH Ht).
Qed.

Lemma int_of_numeral u :
  u <> Decimal.Nil ->
  String.length (NilEmpty.string_of_uint u) <= int_max_str_digits ->
  int_of_str (NilEmpty.string_of_uint u) = Some (Z.of_nat (Nat.of_uint u)).
Proof.
  intros Hu Hlen. unfold int_of_str.
  pose proof (numeral_digits u) as D.
  rewrite (count_digits_all _ D).
  destruct (Nat.ltb_spec int_max_str_digits
              (String.length (NilEmpty.string_of_uint u))) as [L|_]; [lia|].
  destruct (NilEmpty.string_of_uint u) as [|c t] eqn:E.
  - destruct u; simpl in E; congruence.
  - simpl in D. apply andb_true_iff in D. destruct D as [Dc Dt].
    destruct (digit_is_plain c Dc) as (S1 & S2 & S3).
    cbn [lstrip_by]. rewrite S1, S2, S3.
    rewrite rstrip_by_id.
    + rewrite <- E. apply (parse_numeral u 0 false). now left.
    + simpl. rewrite S1. simpl. clear -Dt.
      induction t as [|d t IH]; simpl in *; [reflexivity|].
      apply andb_true_iff in Dt. destruct Dt as [Dd Dt].
      destruct (digit_is_plain d Dd) as (S1 & _). now rewrite S1, IH.
Qed.

Lemma int_of_long_numeral s :
  all_chars is_digit s = true ->
  int_max_str_digits < String.length s ->
  int_of_str s = None.
Proof.
  intros D L. unfold int_of_str. rewrite (count_digits_all _ D).
  now destruct (Nat.ltb_spec int_max_str_digits (String.length s)) as [_|]; [|lia].
Qed.

End RowCapFacts.

(** X24.  [parse_nrows] reads the decimal numeral of a natural number as
    that number when the numeral has at most 4300 digits, the most [int]
    converts; a text of more digits than that is refused like a text that
    is no numeral, and all rows are loaded.  An integer is left as it is,
    and the empty text and a missing value answer [None] (load all
    rows). *)
Theorem parse_nrows_reads_numerals (n : nat) (z : Z) (long : string) :
  String.length (NilEmpty.string_of_uint (Nat.to_uint n))
  <= Config.int_max_str_digits ->
  all_chars is_digit long = true ->
  Config.int_max_str_digits < String.length long ->
  Config.parse_nrows
    (Config.YamlStr (NilEmpty.string_of_uint (Nat.to_uint n)))
  = Some (Z.of_nat n)
  /\ Config.parse_nrows (Config.YamlStr long) = None
  /\ Config.parse_nrows (Config.YamlInt z) = Some z
  /\ Config.parse_nrows (Config.YamlStr EmptyString) = None
  /\ Config.parse_nrows Config.YamlNone = None.
Proof.
  intros Hlen Hdigits Hlong.
  split; [|split; [|repeat split]].
  - unfold Config.parse_nrows.
    pose proof (to_uint_not_nil n) as Hn.
    destruct (String.eqb_spec (NilEmpty.string_of_uint (Nat.to_uint n)) "")
      as [E|_].
    + destruct (Nat.to_uint n); simpl in E; congruence.
    + rewrite (int_of_numeral _ Hn Hlen).
      now rewrite DecimalNat.Unsigned.of_to.
  - unfold Config.parse_nrows.
    destruct (String.eqb long ""); [reflexivity|].
    now apply int_of_long_numeral.
Qed.

Lemma parse_nrows_reads_numerals_witness :
  Config.parse_nrows (Config.YamlStr "1000") = Some 1000%Z
  /\ Config.parse_nrows (Config.YamlStr (Samples.ones 4301)) = None.
Proof.
  assert (H1 : String.length (NilEmpty.string_of_uint (Nat.to_uint 1000))
               <= Config.int_max_str_digits)
    by (apply Nat.leb_le; vm_compute; reflexivity).
  assert (H2 : all_chars is_digit (Samples.ones 4301) = true)
    by (vm_compute; reflexivity).
  assert (H3 : Config.int_max_str_digits < String.length (Samples.ones 4301))
    by (apply Nat.ltb_lt; vm_compute; reflexivity).
  destruct (parse_nrows_reads_numerals 1000 0%Z (Samples.ones 4301) H1 H2 H3)
    as (A & B & _).
  split; [exact A | exact B].
Defined.

Example parse_nrows_samples :
  map Config.parse_nrows
      [ Config.YamlStr "1000"; Config.YamlStr " 1_000 "; Config.YamlStr "-5";
        Config.YamlStr "all"; Config.YamlStr "12.5"; Config.YamlStr " " ]
  = [Some 1000%Z; Some 1000%Z; Some (-5)%Z; None; None; None].
Proof. vm_compute. reflexivity. Qed.

(* ================================================================== *)
(** ** The region list and the date range *)
(* ================================================================== *)

Section SetListFacts.

Lemma some_values_in {A} (l : list (option A)) x :
  In x (some_values l) <-> In (Some x) l.
Proof.
  unfold some_values. rewrite in_concat. split.
  - intros [ys [Hys Hx]]. apply in_map_iff in Hys.
    destruct Hys as [[v|] [<- Hv]]; [|contradiction].
    destruct Hx as [<-|[]]. exact Hv.
  - intros H. exists [x]. split; [|now left].
    apply in_map_iff. now exists (Some x).
Qed.

End SetListFacts.

(** X25.  Given that listing a set names each of its elements once, the
    region list holds each stripped region once, and the date range holds
    every date that parsed, once each, not only the earliest and the latest;
    cells that failed to parse add nothing. *)
Theorem region_and_date_lists
    (list_of_set : list string -> list string)
    (regions : list string) (dates : list (option string)) :
  (forall l, NoDup (list_of_set l)
             /\ forall x, In x (list_of_set l) <-> In x l) ->
  NoDup (_unique_region_list list_of_set regions)
  /\ (forall r, In r (_unique_region_list list_of_set regions)
                <-> exists cell, In cell regions /\ strip cell = r)
  /\ NoDup (_date_range list_of_set dates)
  /\ (forall d, In d (_date_range list_of_set dates) <-> In (Some d) dates).
Proof.
  intros Hset. unfold _unique_region_list, _date_range.
  split; [apply Hset|]. split; [|split; [apply Hset|]].
  - intros r. destruct (Hset (map strip regions)) as [_ H].
    rewrite H, in_map_iff. split; intros [c [H1 H2]]; exists c; auto.
  - intros d. destruct (Hset (some_values dates)) as [_ H].
    rewrite H. apply some_values_in.
Qed.

Lemma region_and_date_lists_witness :
  NoDup (_date_range dedup
           [ Some "2024-12-01 00:00:00"; None; Some "2024-12-27 00:00:00";
             Some "2024-12-09 00:00:00"; Some "2024-12-01 00:00:00" ]).
Proof.
  apply (region_and_date_lists dedup [" us-west"; "us-west "]).
  intros l. split; [apply dedup_nodup | intros x; apply dedup_in].
Defined.

Example date_range_sample :
  _date_range dedup
    [ Some "2024-12-01 00:00:00"; None; Some "2024-12-27 00:00:00";
      Some "2024-12-09 00:00:00"; Some "2024-12-01 00:00:00" ]
  = [ "2024-12-27 00:00:00"; "2024-12-09 00:00:00"; "2024-12-01 00:00:00" ].
Proof. reflexivity. Qed.
